(** * biome-setup: the directive scrubber, package-manager detection and
      manifest handling of [src/index.js], embedded in Rocq.

    JavaScript strings are sequences of UTF-16 code units; a code unit is a
    number in [N].  Regular expressions are embedded as syntax trees with
    the backtracking matcher of ECMAScript (continuation style, as in the
    language specification), restricted to the constructs the program's
    patterns use: every quantifier of [src/index.js] applies to a single
    character class. *)

From Stdlib Require Import String Ascii List NArith Arith Bool Lia.
From Stdlib Require Import Floats.PrimFloat.
Import ListNotations.
Open Scope string_scope.
Open Scope list_scope.

Set Implicit Arguments.

(* ===================================================================== *)
(** ** JavaScript strings *)
(* ===================================================================== *)

Definition code_unit := N.
Definition jsstring := list code_unit.

(** An ASCII literal of the source as a JavaScript string. *)
Definition js (s : string) : jsstring :=
  map N_of_ascii (list_ascii_of_string s).

Definition LF : code_unit := 10%N.
Definition CR : code_unit := 13%N.

Fixpoint jsstring_eqb (a b : jsstring) : bool :=
  match a, b with
  | [], [] => true
  | x :: a', y :: b' => N.eqb x y && jsstring_eqb a' b'
  | _, _ => false
  end.

(** [String.prototype.split(sep)[0]] for a one-unit separator: the text
    before the first occurrence of [sep], the whole string without one. *)
Fixpoint split_head (sep : code_unit) (s : jsstring) : jsstring :=
  match s with
  | [] => []
  | c :: s' => if N.eqb c sep then [] else c :: split_head sep s'
  end.

(* ===================================================================== *)
(** ** Regular expressions *)
(* ===================================================================== *)

Module RegExp.

(** The class escape [\s]: WhiteSpace and LineTerminator code units. *)
Definition is_space (c : code_unit) : bool :=
  existsb (N.eqb c)
    [9; 10; 11; 12; 13; 32; 160; 5760; 8232; 8233; 8239; 8287; 12288; 65279]%N
  || (N.leb 8192 c && N.leb c 8202).

(** Canonicalize of a case-insensitive, non-unicode pattern.  ASCII letters
    are upper-cased; a code unit of 128 or more never canonicalizes to an
    ASCII one, so comparisons against ASCII pattern characters (the only
    ones the program has) are exact with the identity there. *)
Definition canonicalize (ignoreCase : bool) (c : code_unit) : code_unit :=
  if ignoreCase && N.leb 97 c && N.leb c 122 then (c - 32)%N else c.

Definition char_eqb (ignoreCase : bool) (c pat : code_unit) : bool :=
  N.eqb (canonicalize ignoreCase c) (canonicalize ignoreCase pat).

(** Members of a bracket class. *)
Inductive class_atom :=
| CChar (c : code_unit)   (* a literal character, e.g. [*] or [\n] *)
| CSpace                  (* \s *)
| CNonSpace.              (* \S *)

(** [Class false l] is [[l]], [Class true l] is [[^l]]. *)
Inductive char_class := Class (negated : bool) (members : list class_atom).

Definition atom_matches (ignoreCase : bool) (c : code_unit) (a : class_atom) : bool :=
  match a with
  | CChar p => char_eqb ignoreCase c p
  | CSpace => is_space c
  | CNonSpace => negb (is_space c)
  end.

Definition in_class (ignoreCase : bool) (cl : char_class) (c : code_unit) : bool :=
  match cl with
  | Class negated members =>
      xorb negated (existsb (atom_matches ignoreCase c) members)
  end.

Inductive regex :=
| Eps                            (* the empty pattern *)
| Chr (c : code_unit)            (* pattern character *)
| Cls (cl : char_class)          (* one character of a class *)
| Star (cl : char_class)         (* cl*   greedy *)
| StarLazy (cl : char_class)     (* cl*?  *)
| Plus (cl : char_class)         (* cl+   greedy *)
| Seq (r1 r2 : regex)            (* r1 r2 *)
| Alt (r1 r2 : regex).           (* r1|r2 *)

(** A matcher continuation receives the rest of the input and answers with
    the input left after the whole match, or fails. *)
Definition cont := jsstring -> option jsstring.

(** Greedy repetition: take a character when possible, backtrack to the
    continuation on failure. *)
Fixpoint star_greedy (p : code_unit -> bool) (s : jsstring) (k : cont)
  : option jsstring :=
  match s with
  | c :: s' =>
      if p c then
        match star_greedy p s' k with
        | Some t => Some t
        | None => k s
        end
      else k s
  | [] => k []
  end.

(** Lazy repetition: try the continuation first, take a character on
    failure. *)
Fixpoint star_lazy (p : code_unit -> bool) (s : jsstring) (k : cont)
  : option jsstring :=
  match k s with
  | Some t => Some t
  | None =>
      match s with
      | c :: s' => if p c then star_lazy p s' k else None
      | [] => None
      end
  end.

Fixpoint rmatch (ignoreCase : bool) (r : regex) (s : jsstring) (k : cont)
  : option jsstring :=
  match r with
  | Eps => k s
  | Chr c =>
      match s with
      | x :: s' => if char_eqb ignoreCase x c then k s' else None
      | [] => None
      end
  | Cls cl =>
      match s with
      | x :: s' => if in_class ignoreCase cl x then k s' else None
      | [] => None
      end
  | Star cl => star_greedy (in_class ignoreCase cl) s k
  | StarLazy cl => star_lazy (in_class ignoreCase cl) s k
  | Plus cl =>
      match s with
      | x :: s' =>
          if in_class ignoreCase cl x
          then star_greedy (in_class ignoreCase cl) s' k
          else None
      | [] => None
      end
  | Seq r1 r2 => rmatch ignoreCase r1 s (fun t => rmatch ignoreCase r2 t k)
  | Alt r1 r2 =>
      match rmatch ignoreCase r1 s k with
      | Some t => Some t
      | None => rmatch ignoreCase r2 s k
      end
  end.

(** A regular expression object: its pattern and the [i] flag.  The [g]
    flag of the directive patterns is what [String_match] and
    [String_replace] below implement; [test] is used on a pattern without
    it. *)
Record t := mk { pattern : regex; ignoreCase : bool }.

(** The match anchored at the start of [s]: its length. *)
Definition exec_at (re : t) (s : jsstring) : option nat :=
  match rmatch (ignoreCase re) (pattern re) s Some with
  | Some rest => Some (List.length s - List.length rest)
  | None => None
  end.

(** [RegExp.prototype.test] without [g]: is there a match at some index
    from 0 to the length of the string included. *)
Fixpoint test (re : t) (s : jsstring) : bool :=
  match exec_at re s with
  | Some _ => true
  | None =>
      match s with
      | [] => false
      | _ :: s' => test re s'
      end
  end.

(** The successive matches of a global pattern, left to right.  [skip]
    counts the characters of the current match still to pass over; after
    an empty match the search resumes one character further. *)
Fixpoint matches_from (re : t) (s : jsstring) (skip : nat) {struct s}
  : list jsstring :=
  match skip with
  | S n =>
      match s with
      | [] => []
      | _ :: s' => matches_from re s' n
      end
  | O =>
      match exec_at re s with
      | Some len =>
          firstn len s ::
          match s with
          | [] => []
          | _ :: s' => matches_from re s' (pred len)
          end
      | None =>
          match s with
          | [] => []
          | _ :: s' => matches_from re s' 0
          end
      end
  end.

(** The text with every match replaced by [replacement] (a replacement
    without [$] patterns). *)
Fixpoint replace_from (re : t) (replacement : jsstring) (s : jsstring)
  (skip : nat) {struct s} : jsstring :=
  match skip with
  | S n =>
      match s with
      | [] => []
      | _ :: s' => replace_from re replacement s' n
      end
  | O =>
      match exec_at re s with
      | Some len =>
          replacement ++
          match s with
          | [] => []
          | c :: s' =>
              (match len with O => [c] | S _ => [] end)
              ++ replace_from re replacement s' (pred len)
          end
      | None =>
          match s with
          | [] => []
          | c :: s' => c :: replace_from re replacement s' 0
          end
      end
  end.

End RegExp.

(** [str.match(re)] for a global [re]: the array of matches, [null]
    ([None]) when there is none. *)
Definition String_match (s : jsstring) (re : RegExp.t) : option (list jsstring) :=
  match RegExp.matches_from re s 0 with
  | [] => None
  | ms => Some ms
  end.

(** [str.replace(re, replacement)] for a global [re]. *)
Definition String_replace (s : jsstring) (re : RegExp.t) (replacement : jsstring)
  : jsstring :=
  RegExp.replace_from re replacement s 0.

(* ===================================================================== *)
(** ** The patterns of the program *)
(* ===================================================================== *)

Import RegExp.

(** A run of pattern characters. *)
Fixpoint lit_chars (l : jsstring) : regex :=
  match l with
  | [] => Eps
  | [c] => Chr c
  | c :: l' => Seq (Chr c) (lit_chars l')
  end.

Definition lit (s : string) : regex := lit_chars (js s).

Fixpoint seq (rs : list regex) : regex :=
  match rs with
  | [] => Eps
  | [r] => r
  | r :: rs' => Seq r (seq rs')
  end.

Definition ws : char_class := Class false [CSpace].                (* \s *)
Definition any : char_class := Class false [CSpace; CNonSpace].    (* [\s\S] *)
Definition not_star : char_class := Class true [CChar 42%N].       (* [^*] *)
Definition not_eol : char_class := Class true [CChar LF; CChar CR]. (* [^\n\r] *)

(** [/(eslint|prettier)/i] *)
Definition LEGACY_TOOL_PATTERN : RegExp.t :=
  mk (Alt (lit "eslint") (lit "prettier")) true.

Definition block_directive (word : string) : RegExp.t :=
  mk (seq [lit "/*"; Star ws; lit word; StarLazy any; lit "*/"]) false.

Definition line_directive (word : string) : RegExp.t :=
  mk (seq [lit "//"; Star ws; lit word; Star not_eol]) false.

Definition ESLINT_DIRECTIVE_PATTERNS : list RegExp.t :=
  [ block_directive "eslint-disable";   (* /\/\*\s*eslint-disable[\s\S]*?\*\//g *)
    block_directive "eslint-enable";    (* /\/\*\s*eslint-enable[\s\S]*?\*\//g *)
    block_directive "eslint-env";       (* /\/\*\s*eslint-env[\s\S]*?\*\//g *)
    mk (seq [lit "/*"; Star ws; lit "eslint"; Plus ws; Star not_star; lit "*/"])
       false;                           (* /\/\*\s*eslint\s+[^*]*\*\//g *)
    line_directive "eslint-disable";    (* /\/\/\s*eslint-disable[^\n\r]*/g *)
    line_directive "eslint-enable";     (* /\/\/\s*eslint-enable[^\n\r]*/g *)
    line_directive "eslint-env";        (* /\/\/\s*eslint-env[^\n\r]*/g *)
    line_directive "eslint-" ].         (* /\/\/\s*eslint-[^\n\r]*/g *)

(* ===================================================================== *)
(** ** stripEslintCommentsFromContent *)
(* ===================================================================== *)

Record strip_result := { modified : jsstring; removedCount : nat }.

Definition strip_step (acc : strip_result) (regex : RegExp.t) : strip_result :=
  let matches := String_match (modified acc) regex in
  let removedCount' :=
    match matches with
    | Some ms => removedCount acc + List.length ms
    | None => removedCount acc
    end in
  {| modified := String_replace (modified acc) regex [];
     removedCount := removedCount' |}.

Definition stripEslintCommentsFromContent (content : jsstring) : strip_result :=
  fold_left strip_step ESLINT_DIRECTIVE_PATTERNS
    {| modified := content; removedCount := 0 |}.

(* ===================================================================== *)
(** ** JSON values and property access *)
(* ===================================================================== *)

(** The values [JSON.parse] produces.  The members of an object are listed
    in property order, the order in which [Object.keys] enumerates them. *)
#[warnings="-register-all"]
Inductive json :=
| JNull
| JBool (b : bool)
| JNumber (x : float)
| JString (s : jsstring)
| JArray (items : list json)
| JObject (members : list (jsstring * json)).

(** A JavaScript value read from a property: [None] is [undefined]. *)
Definition jsvalue := option json.

(** ToBoolean. *)
Definition truthy (v : jsvalue) : bool :=
  match v with
  | None => false
  | Some JNull => false
  | Some (JBool b) => b
  | Some (JNumber x) => negb (is_zero x || is_nan x)
  | Some (JString s) => match s with [] => false | _ => true end
  | Some (JArray _) => true
  | Some (JObject _) => true
  end.

Fixpoint assoc {A} (key : jsstring) (ms : list (jsstring * A)) : option A :=
  match ms with
  | [] => None
  | (k, v) :: ms' => if jsstring_eqb k key then Some v else assoc key ms'
  end.

(** [v[key]] on a value other than [null], for a key that none of
    [Object.prototype], [Array.prototype], [String.prototype],
    [Number.prototype] and [Boolean.prototype] defines (every key the
    program reads on a parsed value is of that kind). *)
Definition member (v : json) (key : jsstring) : jsvalue :=
  match v with
  | JObject ms => assoc key ms
  | _ => None
  end.

(** [delete o[key]]. *)
Definition remove_key {A} (key : jsstring) (ms : list (jsstring * A))
  : list (jsstring * A) :=
  filter (fun m => negb (jsstring_eqb (fst m) key)) ms.

(** [o[key] = v] on the members of an object, for a key that is not an
    array index: an existing member keeps its place, a new one goes last. *)
Fixpoint set_key {A} (key : jsstring) (v : A) (ms : list (jsstring * A))
  : list (jsstring * A) :=
  match ms with
  | [] => [(key, v)]
  | (k, x) :: ms' =>
      if jsstring_eqb k key then (k, v) :: ms' else (k, x) :: set_key key v ms'
  end.

(** [target[key] = v] as [JSON.stringify] sees it afterwards, for a truthy
    [target] and a key that is not an array index: the assignment is a
    silent no-op on a primitive (the script is not in strict mode), and on
    an array it adds a property that serialization ignores. *)
Definition assign_member (target : json) (key : jsstring) (v : json) : json :=
  match target with
  | JObject ms => JObject (set_key key v ms)
  | _ => target
  end.

(** The decimal digits of an unsigned number, as code units. *)
Fixpoint uint_digits (d : Decimal.uint) : jsstring :=
  match d with
  | Decimal.Nil => []
  | Decimal.D0 d' => 48%N :: uint_digits d'
  | Decimal.D1 d' => 49%N :: uint_digits d'
  | Decimal.D2 d' => 50%N :: uint_digits d'
  | Decimal.D3 d' => 51%N :: uint_digits d'
  | Decimal.D4 d' => 52%N :: uint_digits d'
  | Decimal.D5 d' => 53%N :: uint_digits d'
  | Decimal.D6 d' => 54%N :: uint_digits d'
  | Decimal.D7 d' => 55%N :: uint_digits d'
  | Decimal.D8 d' => 56%N :: uint_digits d'
  | Decimal.D9 d' => 57%N :: uint_digits d'
  end.

Definition index_key (i : nat) : jsstring := uint_digits (Nat.to_uint i).

(** [Object.keys(v)] for a truthy [v]: the member names of an object, the
    indices of an array or of a string, nothing for a number or a boolean. *)
Definition Object_keys (v : json) : list jsstring :=
  match v with
  | JObject ms => map fst ms
  | JArray items => map index_key (List.seq 0 (List.length items))
  | JString s => map index_key (List.seq 0 (List.length s))
  | _ => []
  end.

(** A [Set] of strings in insertion order. *)
Definition Set_add (x : jsstring) (set : list jsstring) : list jsstring :=
  if existsb (jsstring_eqb x) set then set else set ++ [x].

(** [parts.join(sep)]. *)
Fixpoint join (sep : jsstring) (parts : list jsstring) : jsstring :=
  match parts with
  | [] => []
  | [p] => p
  | p :: rest => p ++ sep ++ join sep rest
  end.

(* ===================================================================== *)
(** ** Manifest inspection *)
(* ===================================================================== *)

Definition dependencyFields : list jsstring :=
  [js "dependencies"; js "devDependencies"; js "peerDependencies";
   js "optionalDependencies"].

Module PROJECT_TYPE.
Inductive t := react | node.
Definition name (p : t) : jsstring :=
  match p with react => js "react" | node => js "node" end.
End PROJECT_TYPE.

(** The loop of [inferProjectType] over the dependency fields. *)
Fixpoint inferProjectType_loop (pkg : json) (fields : list jsstring)
  : PROJECT_TYPE.t :=
  match fields with
  | [] => PROJECT_TYPE.node
  | field :: rest =>
      match member pkg field with
      | Some deps =>
          if negb (truthy (Some deps)) then inferProjectType_loop pkg rest
          else if truthy (member deps (js "next"))
                  || truthy (member deps (js "react"))
                  || truthy (member deps (js "react-dom"))
          then PROJECT_TYPE.react
          else inferProjectType_loop pkg rest
      | None => inferProjectType_loop pkg rest
      end
  end.

Definition inferProjectType (pkg : json) : PROJECT_TYPE.t :=
  inferProjectType_loop pkg dependencyFields.

(** The dependency part of [isTypescriptProject]. *)
Definition hasTypescriptDependency (pkg : json) : bool :=
  existsb
    (fun field =>
       match member pkg field with
       | Some deps => truthy (Some deps) && truthy (member deps (js "typescript"))
       | None => false
       end)
    dependencyFields.

Definition findLegacyTools_names (legacy : list jsstring) (names : list jsstring)
  : list jsstring :=
  fold_left
    (fun legacy name =>
       if RegExp.test LEGACY_TOOL_PATTERN name then Set_add name legacy else legacy)
    names legacy.

Definition findLegacyTools_field (pkg : json) (legacy : list jsstring)
  (field : jsstring) : list jsstring :=
  match member pkg field with
  | Some deps =>
      if negb (truthy (Some deps)) then legacy
      else findLegacyTools_names legacy (Object_keys deps)
  | None => legacy
  end.

Definition findLegacyTools (pkg : json) : list jsstring :=
  fold_left (findLegacyTools_field pkg) dependencyFields [].

(** [cleanEslintPrettierConfig]: the manifest after the deletions and the
    [changed] flag. *)
Definition cleanEslintPrettierConfig (pkg : json) : json * bool :=
  match pkg with
  | JObject ms =>
      let '(ms1, changed1) :=
        if truthy (assoc (js "eslintConfig") ms)
        then (remove_key (js "eslintConfig") ms, true)
        else (ms, false) in
      let '(ms2, changed2) :=
        if truthy (assoc (js "prettier") ms1)
        then (remove_key (js "prettier") ms1, true)
        else (ms1, changed1) in
      (JObject ms2, changed2)
  | _ => (pkg, false)
  end.

(** The script assignments of [updatePackageJsonScripts] on the value of
    [pkg.scripts]. *)
Definition setScripts (isTs : bool) (scripts : json) : json :=
  if isTs then
    let s1 := assign_member scripts (js "type-check") (JString (js "tsc -b --noEmit")) in
    let s2 := assign_member s1 (js "lint")
      (JString (js "biome lint --diagnostic-level=error --no-errors-on-unmatched && type-check")) in
    assign_member s2 (js "lint:fix")
      (JString (js "biome check --write --unsafe && type-check"))
  else
    let s1 := assign_member scripts (js "lint")
      (JString (js "biome lint --diagnostic-level=error --no-errors-on-unmatched")) in
    assign_member s1 (js "lint:fix") (JString (js "biome check --write --unsafe")).

(** [pkg.scripts = pkg.scripts || {}] followed by the script assignments,
    on a manifest object. *)
Definition withScripts (isTs : bool) (ms : list (jsstring * json))
  : list (jsstring * json) :=
  let scripts :=
    if truthy (assoc (js "scripts") ms)
    then match assoc (js "scripts") ms with Some v => v | None => JObject [] end
    else JObject [] in
  set_key (js "scripts") (setScripts isTs scripts) ms.

(* ===================================================================== *)
(** ** Exceptions, paths and package managers *)
(* ===================================================================== *)

(** [CliError] is the program's own error class; every other exception
    (TypeError, SyntaxError, a failed system call) is an [OtherError]. *)
Inductive exn :=
| CliError (message : jsstring)
| OtherError (message : jsstring).

Definition message (e : exn) : jsstring :=
  match e with CliError m => m | OtherError m => m end.

Inductive result (A : Type) :=
| Ok (a : A)
| Throw (e : exn).
Arguments Ok {A} a.
Arguments Throw {A} e.

(** An absolute, normalized path is the list of its components, the last
    component first: [path.join(dir, name)] is [name :: dir],
    [path.dirname] is the tail, and the root [[]] is its own parent. *)
Definition path := list jsstring.

Definition path_join (directory : path) (name : jsstring) : path := name :: directory.
Definition path_dirname (p : path) : path := tl p.

Fixpoint path_eqb (a b : path) : bool :=
  match a, b with
  | [], [] => true
  | x :: a', y :: b' => jsstring_eqb x y && path_eqb a' b'
  | _, _ => false
  end.

Record PackageManager := {
  id : jsstring;
  lockFile : option jsstring;
  buildInstallCommand : jsstring -> jsstring;
  buildUninstallCommand : list jsstring -> jsstring;
  lint_run : jsstring;
  lint_fix : jsstring
}.

Definition pnpm : PackageManager :=
  {| id := js "pnpm"; lockFile := Some (js "pnpm-lock.yaml");
     buildInstallCommand := fun dependency => js "pnpm add -D -E " ++ dependency;
     buildUninstallCommand := fun packages => js "pnpm remove " ++ join (js " ") packages;
     lint_run := js "pnpm lint"; lint_fix := js "pnpm lint:fix" |}.

Definition yarn : PackageManager :=
  {| id := js "yarn"; lockFile := Some (js "yarn.lock");
     buildInstallCommand := fun dependency => js "yarn add -D -E " ++ dependency;
     buildUninstallCommand := fun packages => js "yarn remove " ++ join (js " ") packages;
     lint_run := js "yarn lint"; lint_fix := js "yarn lint:fix" |}.

Definition bun : PackageManager :=
  {| id := js "bun"; lockFile := Some (js "bun.lockb");
     buildInstallCommand := fun dependency => js "bun add -D -E " ++ dependency;
     buildUninstallCommand := fun packages => js "bun remove " ++ join (js " ") packages;
     lint_run := js "bun run lint"; lint_fix := js "bun run lint:fix" |}.

Definition npm : PackageManager :=
  {| id := js "npm"; lockFile := None;
     buildInstallCommand := fun dependency => js "npm install -D -E " ++ dependency;
     buildUninstallCommand := fun packages => js "npm uninstall " ++ join (js " ") packages;
     lint_run := js "npm run lint"; lint_fix := js "npm run lint:fix" |}.

(** The own properties of the frozen [PACKAGE_MANAGERS] object. *)
Definition PACKAGE_MANAGERS : list (jsstring * PackageManager) :=
  [(js "pnpm", pnpm); (js "yarn", yarn); (js "bun", bun); (js "npm", npm)].

Definition PACKAGE_MANAGER_PRIORITY : list jsstring :=
  [js "pnpm"; js "yarn"; js "bun"].

(** The properties every object literal inherits from [Object.prototype];
    the value of each is a function or an object, hence truthy. *)
Definition Object_prototype_keys : list jsstring :=
  [js "constructor"; js "__defineGetter__"; js "__defineSetter__";
   js "hasOwnProperty"; js "__lookupGetter__"; js "__lookupSetter__";
   js "isPrototypeOf"; js "propertyIsEnumerable"; js "toString";
   js "valueOf"; js "__proto__"; js "toLocaleString"].

(** What [PACKAGE_MANAGERS[id]] evaluates to when it is not [undefined]. *)
Inductive table_value :=
| Profile (pm : PackageManager)
| Inherited (key : jsstring).

(** [PACKAGE_MANAGERS[id]]: an own property, else one found on the
    prototype chain, else [undefined]. *)
Definition PACKAGE_MANAGERS_get (key : jsstring) : option table_value :=
  match assoc key PACKAGE_MANAGERS with
  | Some pm => Some (Profile pm)
  | None =>
      if existsb (jsstring_eqb key) Object_prototype_keys
      then Some (Inherited key)
      else None
  end.

Definition AT_SIGN : code_unit := 64%N.

(* ===================================================================== *)
(** ** Environment probing, over any file system *)
(* ===================================================================== *)

Record found := { directory : path; file : path; name : jsstring }.

(** A directory and the directories above it, nearest first. *)
Fixpoint ancestors (d : path) : list path :=
  d :: match d with
       | [] => []
       | _ :: parent => ancestors parent
       end.

Section Probing.

(** The working directory, [fs.existsSync], [fs.readFileSync(_, "utf8")]
    and [JSON.parse] of the host. *)
Variable PROJECT_ROOT : path.
Variable existsSync : path -> bool.
Variable readFileSync : path -> result jsstring.
Variable JSON_parse : jsstring -> result json.

Definition PATHS_packageJson : path := path_join PROJECT_ROOT (js "package.json").
Definition PATHS_biomeConfig : path := path_join PROJECT_ROOT (js "biome.json").

Fixpoint findUpwards_from (filenames : list jsstring) (current : path)
  : option found :=
  match find (fun name => existsSync (path_join current name)) filenames with
  | Some name =>
      Some {| directory := current; file := path_join current name; name := name |}
  | None =>
      match current with
      | [] => None
      | _ :: parent => findUpwards_from filenames parent
      end
  end.

Definition findUpwards (filenames : list jsstring) : option found :=
  findUpwards_from filenames PROJECT_ROOT.

Definition isTypescriptProject (pkg : json) : bool :=
  existsSync (path_join PROJECT_ROOT (js "tsconfig.json"))
  || hasTypescriptDependency pkg.

Definition extractFromPackageManagerField (pkgJsonPath : option path)
  : option table_value :=
  match pkgJsonPath with
  | None => None
  | Some p =>
      match readFileSync p with
      | Throw _ => None
      | Ok raw =>
          match JSON_parse raw with
          | Throw _ => None
          | Ok JNull => None        (* TypeError, caught *)
          | Ok parsed =>
              match member parsed (js "packageManager") with
              | Some (JString declared) =>
                  PACKAGE_MANAGERS_get (split_head AT_SIGN declared)
              | _ => None
              end
          end
      end
  end.

(** Step 3 of [detectPackageManager]. *)
Fixpoint detectFromLockfiles (ids : list jsstring) : option PackageManager :=
  match ids with
  | [] => None
  | i :: rest =>
      match assoc i PACKAGE_MANAGERS with
      | Some candidate =>
          match lockFile candidate with
          | None => detectFromLockfiles rest
          | Some lock =>
              match findUpwards [lock] with
              | Some _ => Some candidate
              | None => detectFromLockfiles rest
              end
          end
      | None => detectFromLockfiles rest
      end
  end.

Definition detectPackageManager : table_value :=
  match extractFromPackageManagerField (Some PATHS_packageJson) with
  | Some fromLocalField => fromLocalField
  | None =>
      let fromUpstream :=
        match findUpwards [js "package.json"] with
        | Some upstreamPkg =>
            if negb (path_eqb (file upstreamPkg) PATHS_packageJson)
            then extractFromPackageManagerField (Some (file upstreamPkg))
            else None
        | None => None
        end in
      match fromUpstream with
      | Some fromUpstreamField => fromUpstreamField
      | None =>
          match detectFromLockfiles PACKAGE_MANAGER_PRIORITY with
          | Some candidate => Profile candidate
          | None => Profile npm
          end
      end
  end.

Definition ensurePackageJsonExists : result unit :=
  if negb (existsSync PATHS_packageJson)
  then Throw (CliError
         (js "No package.json found. Please run this command in your project root."))
  else Ok tt.

Definition readPackageJson : result json :=
  match ensurePackageJsonExists with
  | Throw e => Throw e
  | Ok _ =>
      let attempt :=
        match readFileSync PATHS_packageJson with
        | Throw e => Throw e
        | Ok raw => JSON_parse raw
        end in
      match attempt with
      | Ok pkg => Ok pkg
      | Throw error =>
          Throw (CliError
            (js "Could not read or parse package.json: " ++ message error))
      end
  end.

(** Vocabulary of the properties: a file of that name exists in the
    working directory or in a directory above it. *)
Definition exists_upwards (filename : jsstring) : bool :=
  existsb (fun d => existsSync (path_join d filename)) (ancestors PROJECT_ROOT).

(** The manifest at [p], if there is a readable one, declares no
    [packageManager] whose name is a property of the manager table. *)
Definition declares_nothing (p : path) : Prop :=
  forall raw parsed declared,
    readFileSync p = Ok raw ->
    JSON_parse raw = Ok parsed ->
    member parsed (js "packageManager") = Some (JString declared) ->
    PACKAGE_MANAGERS_get (split_head AT_SIGN declared) = None.

(** The manager of claim C3: the one whose lockfile is nearest to the
    working directory, [pnpm] before [yarn] before [bun] in a directory
    that holds several, [npm] without any lockfile. *)
Definition nearest_lockfile_manager : PackageManager :=
  match findUpwards [js "pnpm-lock.yaml"; js "yarn.lock"; js "bun.lockb"] with
  | Some f =>
      if jsstring_eqb (name f) (js "pnpm-lock.yaml") then pnpm
      else if jsstring_eqb (name f) (js "yarn.lock") then yarn
      else bun
  | None => npm
  end.

End Probing.

(* ===================================================================== *)
(** ** The comment scrubber's walk *)
(* ===================================================================== *)

Definition CODE_EXTENSIONS : list jsstring :=
  [js ".js"; js ".jsx"; js ".ts"; js ".tsx"; js ".mjs"; js ".cjs";
   js ".vue"; js ".svelte"; js ".astro"].

Definition IGNORED_DIRECTORIES : list jsstring :=
  [js "node_modules"; js ".git"; js "dist"; js "build"; js "coverage";
   js ".next"; js ".turbo"; js ".cache"; js ".vscode"; js ".idea"].

Definition Set_has (set : list jsstring) (x : jsstring) : bool :=
  existsb (jsstring_eqb x) set.

Definition shouldIgnoreDir (dirName : jsstring) : bool :=
  Set_has IGNORED_DIRECTORIES dirName.

Definition DOT : code_unit := 46%N.

(** The suffix of [s] that starts at its last dot. *)
Fixpoint from_last_dot (s : jsstring) : option jsstring :=
  match s with
  | [] => None
  | c :: s' =>
      match from_last_dot s' with
      | Some e => Some e
      | None => if N.eqb c DOT then Some s else None
      end
  end.

(** [path.extname] of a path, computed on its last component: the text
    from the last dot, empty when there is no dot, when the only dot leads
    the name, and for [..]. *)
Definition path_extname (p : path) : jsstring :=
  match p with
  | (c :: rest) as base :: _ =>
      match from_last_dot rest with
      | Some e => if jsstring_eqb base (js "..") then [] else e
      | None => []
      end
  | _ => []
  end.

Definition isCodeFile (filePath : path) : bool :=
  Set_has CODE_EXTENSIONS (path_extname filePath).

(** A directory tree.  [Link target] is a symbolic link, [target] being
    the path it resolves to, given as the paths of the program are (from
    the root, through directories that are not links themselves); [Other]
    stands for an entry of another kind (a socket, a FIFO, a device).
    [fs.readdirSync] lists both with [isFile()] and [isDirectory()] false,
    whatever a link points to. *)
#[warnings="-register-all"]
Inductive fsnode :=
| File (content : jsstring)
| Dir (entries : list (jsstring * fsnode))
| Link (target : path)
| Other.

Record CommentStats := {
  filesScanned : nat;
  filesTouched : nat;
  totalCommentsRemoved : nat
}.

(** The counters of [walkAndCleanComments] and the [fs.writeFileSync]
    calls made so far, oldest first. *)
Record walk_state := {
  stats : CommentStats;
  writes : list (path * jsstring)
}.

(** The part of the walk's loop body that handles a code file. *)
Definition scrub_file (entryPath : path) (original : jsstring) (st : walk_state)
  : walk_state :=
  let scanned := S (filesScanned (stats st)) in
  let result := stripEslintCommentsFromContent original in
  if (0 <? removedCount result)%nat then
    {| stats := {| filesScanned := scanned;
                   filesTouched := S (filesTouched (stats st));
                   totalCommentsRemoved :=
                     totalCommentsRemoved (stats st) + removedCount result |};
       writes := writes st ++ [(entryPath, modified result)] |}
  else
    {| stats := {| filesScanned := scanned;
                   filesTouched := filesTouched (stats st);
                   totalCommentsRemoved := totalCommentsRemoved (stats st) |};
       writes := writes st |}.

(** The loop body of [walk] for one directory entry. *)
Fixpoint walk_entry (directory : path) (entryName : jsstring) (entry : fsnode)
  (st : walk_state) {struct entry} : walk_state :=
  let entryPath := path_join directory entryName in
  match entry with
  | Dir entries =>
      if shouldIgnoreDir entryName then st
      else
        fold_left
          (fun st e => walk_entry entryPath (fst e) (snd e) st)
          entries st
  | File original =>
      if negb (isCodeFile entryPath) then st
      else scrub_file entryPath original st
  | Link _ => st
  | Other => st
  end.

Definition walk (directory : path) (entries : list (jsstring * fsnode))
  (st : walk_state) : walk_state :=
  fold_left (fun st e => walk_entry directory (fst e) (snd e) st) entries st.

Definition walk_start : walk_state :=
  {| stats := {| filesScanned := 0; filesTouched := 0; totalCommentsRemoved := 0 |};
     writes := [] |}.

(** [update_first key f ms] applies [f] to the first member named [key]. *)
Fixpoint update_first {A} (key : jsstring) (f : A -> A) (ms : list (jsstring * A))
  : list (jsstring * A) :=
  match ms with
  | [] => []
  | (k, x) :: ms' =>
      if jsstring_eqb k key then (k, f x) :: ms'
      else (k, x) :: update_first key f ms'
  end.

(** The entries of a directory after the node at [rpath] (a path given
    root first, relative to that directory) has been replaced by [new]. *)
Fixpoint graft (rpath : list jsstring) (new : fsnode)
  (es : list (jsstring * fsnode)) : list (jsstring * fsnode) :=
  match rpath with
  | [] => es
  | d :: rest =>
      match rest with
      | [] => update_first d (fun _ => new) es
      | _ =>
          update_first d
            (fun child =>
               match child with
               | Dir sub => Dir (graft rest new sub)
               | _ => child
               end)
            es
      end
  end.

(* ===================================================================== *)
(** ** The world: a directory tree and the console *)
(* ===================================================================== *)

Inductive stream := Stdout | Stderr.

Record world := {
  root : list (jsstring * fsnode);        (* the entries of the root directory *)
  console : list (stream * jsstring)      (* the lines printed, oldest first *)
}.

(** The node at a path given root first. *)
Fixpoint tree_lookup (rpath : list jsstring) (n : fsnode) : option fsnode :=
  match rpath with
  | [] => Some n
  | d :: rest =>
      match n with
      | Dir es =>
          match assoc d es with
          | Some child => tree_lookup rest child
          | None => None
          end
      | _ => None
      end
  end.

(** Creating or overwriting a regular file at a path given root first,
    no link followed; [None] when the parent is not a directory or the
    path holds something else than a regular file. *)
Fixpoint tree_write (rpath : list jsstring) (content : jsstring)
  (es : list (jsstring * fsnode)) : option (list (jsstring * fsnode)) :=
  match rpath with
  | [] => None
  | [leaf] =>
      match assoc leaf es with
      | Some (Dir _) => None
      | Some (Link _) => None
      | Some Other => None
      | _ => Some (set_key leaf (File content) es)
      end
  | d :: rest =>
      match assoc d es with
      | Some (Dir sub) =>
          match tree_write rest content sub with
          | Some sub' => Some (set_key d (Dir sub') es)
          | None => None
          end
      | _ => None
      end
  end.

(** What the disk holds at a path, a link there not followed. *)
Definition lookup (w : world) (p : path) : option fsnode :=
  tree_lookup (rev p) (Dir (root w)).

(** The path that [p] names once the symbolic links at its end are
    followed, as [fs.existsSync], [fs.readFileSync] and [fs.writeFileSync]
    do; none beyond the number of links that the system follows (ELOOP). *)
Fixpoint follow_links (fuel : nat) (w : world) (p : path) : option path :=
  match lookup w p with
  | Some (Link target) =>
      match fuel with
      | O => None
      | S n => follow_links n w target
      end
  | _ => Some p
  end.

Definition MAXSYMLINKS : nat := 40.

Definition realpath (w : world) (p : path) : option path :=
  follow_links MAXSYMLINKS w p.

Definition world_existsSync (w : world) (p : path) : bool :=
  match realpath w p with
  | Some q => match lookup w q with Some _ => true | None => false end
  | None => false
  end.

Definition world_readFileSync (w : world) (p : path) : result jsstring :=
  match realpath w p with
  | Some q =>
      match lookup w q with
      | Some (File content) => Ok content
      | Some (Dir _) =>
          Throw (OtherError (js "EISDIR: illegal operation on a directory, read"))
      | Some _ => Throw (OtherError (js "EINVAL: invalid argument, read"))
      | None => Throw (OtherError (js "ENOENT: no such file or directory, open"))
      end
  | None => Throw (OtherError (js "ELOOP: too many symbolic links encountered, open"))
  end.

(** Computations that read and change the world and may throw. *)
Definition M (A : Type) := world -> result A * world.

Definition ret {A} (a : A) : M A := fun w => (Ok a, w).
Definition throw {A} (e : exn) : M A := fun w => (Throw e, w).
Definition bind {A B} (c : M A) (k : A -> M B) : M B :=
  fun w =>
    match c w with
    | (Ok a, w') => k a w'
    | (Throw e, w') => (Throw e, w')
    end.
Definition lift {A} (r : result A) : M A := fun w => (r, w).
Definition when_ (b : bool) (c : M unit) : M unit := if b then c else ret tt.

Notation "x <- c ;; k" := (bind c (fun x => k))
  (at level 61, c at next level, right associativity).
Notation "c ;;; k" := (bind c (fun _ => k))
  (at level 61, right associativity).

Definition print (s : stream) (line : jsstring) : M unit :=
  fun w => (Ok tt, {| root := root w; console := console w ++ [(s, line)] |}).

Definition console_log (line : jsstring) : M unit := print Stdout line.
Definition console_error (line : jsstring) : M unit := print Stderr line.

(** [fs.writeFileSync]; the text of the system error depends on its cause
    and is not looked at by the program. *)
Definition fs_writeFileSync (p : path) (content : jsstring) : M unit :=
  fun w =>
    match realpath w p with
    | Some q =>
        match tree_write (rev q) content (root w) with
        | Some es => (Ok tt, {| root := es; console := console w |})
        | None =>
            (Throw (OtherError (js "fs.writeFileSync: cannot open for writing")), w)
        end
    | None =>
        (Throw (OtherError (js "ELOOP: too many symbolic links encountered, open")), w)
    end.

(** A loop over a list whose body updates a value of type [S], as the body
    of the walk updates its counters. *)
Fixpoint foldM {A S} (body : S -> A -> M S) (l : list A) (st : S) : M S :=
  match l with
  | [] => ret st
  | x :: l' => st' <- body st x ;; foldM body l' st'
  end.

(** The calls that [walkAndCleanComments] makes to the file system. *)
Inductive fs_call :=
| Scandir (p : path)      (* fs.readdirSync(p, { withFileTypes: true }) *)
| ReadFile (p : path)     (* fs.readFileSync(p, "utf8") *)
| WriteFile (p : path) (content : jsstring).   (* fs.writeFileSync(p, content) *)

Definition BIOME_VERSION : jsstring := js "2.3.8".
Definition BIOME_SCHEMA_URL : jsstring :=
  js "https://biomejs.dev/schemas/" ++ BIOME_VERSION ++ js "/schema.json".

Definition decimal (n : nat) : jsstring := index_key n.

(** The result of a synchronous child process: success, or the failure
    with the exit status when the error carries a numeric one. *)
Inductive exec_outcome := ExecOk | ExecFailed (status : option nat).

Record answers := { removeLegacy : option bool; cleanComments : bool }.

Definition jstr (s : string) : json := JString (js s).
Definition jobj (ms : list (string * json)) : json :=
  JObject (map (fun m => (js (fst m), snd m)) ms).

Definition naming (kind : string) (match_ : option string) (formats : list string)
  : json :=
  jobj ([("selector", jobj [("kind", jstr kind)])]
        ++ match match_ with Some m => [("match", jstr m)] | None => [] end
        ++ [("formats", JArray (map jstr formats))])%list.

Definition baseConfig : list (jsstring * json) :=
  [ (js "$schema", JString BIOME_SCHEMA_URL);
    (js "linter", jobj
      [("enabled", JBool true);
       ("rules", jobj
         [("recommended", JBool true);
          ("style", jobj
            [("useTemplate", jstr "error");
             ("useImportType", jstr "error");
             ("noParameterAssign", jstr "error");
             ("useAsConstAssertion", jstr "error");
             ("useDefaultParameterLast", jstr "error");
             ("useEnumInitializers", jstr "error");
             ("useSelfClosingElements", jstr "error");
             ("useConst", jstr "error");
             ("useSingleVarDeclarator", jstr "error");
             ("noUnusedTemplateLiteral", jstr "error");
             ("useNumberNamespace", jstr "error");
             ("noInferrableTypes", jstr "error");
             ("noUselessElse", jstr "error");
             ("useNamingConvention", jobj
               [("level", jstr "error");
                ("options", jobj
                  [("strictCase", JBool false);
                   ("conventions", JArray
                     [naming "interface" (Some "I(.*)|(.*?)Error") ["PascalCase"];
                      naming "typeAlias" (Some "T(.*)|(.*?)Error") ["PascalCase"];
                      naming "objectLiteralProperty" None
                        ["camelCase"; "snake_case"; "CONSTANT_CASE"; "PascalCase"];
                      naming "enum" (Some "E(.*)|(.*?)Error") ["PascalCase"];
                      naming "enumMember" None ["CONSTANT_CASE"]])])])]);
          ("correctness", jobj
            [("noUnusedVariables", jstr "warn");
             ("noUnusedImports", jstr "error")])])]);
    (js "files", jobj
      [("includes", JArray
         [jstr "**"; jstr "!**/dist/**"; jstr "!**/node_modules/**";
          jstr "!**/.git/**"; jstr "!**/coverage/**"])]);
    (js "assist", jobj
      [("actions", jobj
         [("source", jobj
            [("organizeImports", jobj
               [("level", jstr "on");
                ("options", jobj
                  [("groups", JArray
                     [JArray [jstr ":URL:"; jstr ":NODE:"; jstr ":PACKAGE:"];
                      jstr ":BLANK_LINE:";
                      JArray [jstr "@/"]])])])])])]);
    (js "formatter", jobj
      [("enabled", JBool true);
       ("indentStyle", jstr "space");
       ("indentWidth", JNumber 2%float);
       ("lineWidth", JNumber 80%float)]);
    (js "javascript", jobj
      [("formatter", jobj
         [("indentStyle", jstr "space");
          ("indentWidth", JNumber 2%float);
          ("quoteStyle", jstr "double");
          ("semicolons", jstr "asNeeded");
          ("lineEnding", jstr "lf")])]);
    (js "vcs", jobj
      [("enabled", JBool false);
       ("clientKind", jstr "git");
       ("useIgnoreFile", JBool false)]) ].

Definition createBiomeConfig (projectType : PROJECT_TYPE.t) : json :=
  match projectType with
  | PROJECT_TYPE.react =>
      JObject (baseConfig ++
        [(js "css", jobj [("parser", jobj [("tailwindDirectives", JBool true)])])])
  | PROJECT_TYPE.node => JObject baseConfig
  end.

(** [pmConfig.id] in a template string. *)
Definition pm_id (pmConfig : table_value) : jsstring :=
  match pmConfig with
  | Profile pm => id pm
  | Inherited _ => js "undefined"
  end.

Definition not_a_function (what : string) : exn :=
  OtherError (js what ++ js " is not a function").

Definition banner : jsstring := js "===============================================".

(* ===================================================================== *)
(** ** The orchestrator *)
(* ===================================================================== *)

Section Host.

(** [process.cwd()]: the working directory, a path without links. *)
Variable PROJECT_ROOT : path.
Variable JSON_parse : jsstring -> result json.
(** [JSON.stringify(value, null, 2)] *)
Variable JSON_stringify : json -> jsstring.
(** [cp.execSync(command, { stdio: "inherit" })]: the child may change
    the world. *)
Variable execSync : jsstring -> world -> exec_outcome * world.
(** [inquirer.prompt]: the argument tells whether the first question is
    asked. *)
Variable inquirer_prompt : bool -> M answers.
(** [chalk.<style>(text)] *)
Variable chalk : string -> jsstring -> jsstring.
(** What [console.error] prints for an error object. *)
Variable inspect : exn -> jsstring.
(** The failures of the host that the tree does not show (a permission
    denied, a read-only or full disk, too many open files): the call of
    the walk that the host refuses in a given world, with the error
    thrown. *)
Variable fs_fault : fs_call -> world -> option exn.

Definition logger_info (m : jsstring) : M unit := console_log (chalk "white" m).
Definition logger_success (m : jsstring) : M unit := console_log (chalk "green" m).
Definition logger_warn (m : jsstring) : M unit := console_log (chalk "yellow" m).
Definition logger_error (m : jsstring) : M unit := console_error (chalk "red" m).
Definition logger_step (m : jsstring) : M unit := console_log (chalk "cyan" m).
Definition logger_command (command : jsstring) : M unit :=
  console_log (chalk "gray" (js "> " ++ command)).

Definition detect : M table_value :=
  fun w =>
    (Ok (detectPackageManager PROJECT_ROOT (world_existsSync w)
           (world_readFileSync w) JSON_parse), w).

Definition readManifest : M json :=
  fun w =>
    (readPackageJson PROJECT_ROOT (world_existsSync w) (world_readFileSync w)
       JSON_parse, w).

Definition writePackageJson (pkg : json) : M unit :=
  fs_writeFileSync (PATHS_packageJson PROJECT_ROOT) (JSON_stringify pkg ++ [LF]).

Definition printBanner : M unit :=
  console_log [] ;;;
  console_log (chalk "cyan" banner) ;;;
  console_log (chalk "cyan" (js "          Biome Migration Assistant")) ;;;
  console_log (chalk "cyan" banner) ;;;
  console_log [].

Definition runCommand (command : jsstring) : M unit :=
  logger_command command ;;;
  fun w =>
    match execSync command w with
    | (ExecOk, w') => (Ok tt, w')
    | (ExecFailed status, w') =>
        let exitCode :=
          match status with
          | Some n => js " (exit code " ++ decimal n ++ js ")"
          | None => []
          end in
        (Throw (CliError (js "Command failed: " ++ command ++ exitCode)), w')
    end.

Definition uninstallLegacyTools (pmConfig : table_value) (packages : list jsstring)
  : M unit :=
  match packages with
  | [] => ret tt
  | _ =>
      console_log [] ;;;
      logger_warn (js "Removing ESLint/Prettier related packages:") ;;;
      logger_warn (js "  " ++ join (js ", ") packages) ;;;
      console_log [] ;;;
      match pmConfig with
      | Profile pm => runCommand (buildUninstallCommand pm packages)
      | Inherited _ => throw (not_a_function "pmConfig.buildUninstallCommand")
      end
  end.

Definition installBiome (pmConfig : table_value) : M unit :=
  match pmConfig with
  | Profile pm =>
      let command := buildInstallCommand pm (js "@biomejs/biome@" ++ BIOME_VERSION) in
      console_log [] ;;;
      logger_success (js "Installing Biome version " ++ BIOME_VERSION ++ js "...") ;;;
      runCommand command
  | Inherited _ => throw (not_a_function "pmConfig.buildInstallCommand")
  end.

Definition writeBiomeConfig (projectType : PROJECT_TYPE.t) : M unit :=
  fun w =>
    if world_existsSync w (PATHS_biomeConfig PROJECT_ROOT) then
      logger_warn
        (js "A biome.json file already exists. It will not be overwritten.") w
    else
      (fs_writeFileSync (PATHS_biomeConfig PROJECT_ROOT)
         (JSON_stringify (createBiomeConfig projectType) ++ [LF]) ;;;
       logger_success (js "Created biome.json for project type: "
                         ++ PROJECT_TYPE.name projectType)) w.

Definition null_property (key : string) : exn :=
  OtherError (js "Cannot read properties of null (reading '" ++ js key ++ js "')").

(** What [updatePackageJsonScripts] hands to [writePackageJson]. *)
Definition updatedManifest (w : world) (pkg : json) : result json :=
  match pkg with
  | JNull => Throw (null_property "scripts")
  | JObject ms =>
      let isTs := isTypescriptProject PROJECT_ROOT (world_existsSync w) pkg in
      Ok (JObject (withScripts isTs ms))
  | JArray _ => Ok pkg
  | _ => Throw (OtherError (js "Cannot set properties of undefined"))
  end.

Definition updatePackageJsonScripts : M unit :=
  pkg <- readManifest ;;
  pkg' <- (fun w => (updatedManifest w pkg, w)) ;;
  writePackageJson pkg' ;;;
  logger_success (js "Added scripts to package.json: lint, lint:fix").

(** A call to the file system that the host may refuse. *)
Definition attempt {A} (call : fs_call) (c : M A) : M A :=
  fun w =>
    match fs_fault call w with
    | Some error => (Throw error, w)
    | None => c w
    end.

(** The loop body of [walk] inside [walkAndCleanComments], for one
    directory entry, on the disk as it is when the entry is reached: the
    file is read, scrubbed and written back before the next entry is
    looked at, and the first call that throws ends the walk.  [entry] is
    what the listing of [directory] holds under [entryName]; the listing
    of a subdirectory comes with it, since the writes of the walk replace
    the text of regular files and change no listing.  [walk_entry] above
    is the same loop with every call succeeding and the writes listed
    instead of made. *)
Fixpoint walk_entry_io (directory : path) (entryName : jsstring) (entry : fsnode)
  (counters : CommentStats) {struct entry} : M CommentStats :=
  let entryPath := path_join directory entryName in
  match entry with
  | Dir entries =>
      if shouldIgnoreDir entryName then ret counters
      else
        attempt (Scandir entryPath)
          (foldM (fun counters e => walk_entry_io entryPath (fst e) (snd e) counters)
             entries counters)
  | File _ =>
      if negb (isCodeFile entryPath) then ret counters
      else
        original <- attempt (ReadFile entryPath)
                      (fun w => (world_readFileSync w entryPath, w)) ;;
        let result := stripEslintCommentsFromContent original in
        if (0 <? removedCount result)%nat then
          attempt (WriteFile entryPath (modified result))
            (fs_writeFileSync entryPath (modified result)) ;;;
          ret {| filesScanned := S (filesScanned counters);
                 filesTouched := S (filesTouched counters);
                 totalCommentsRemoved :=
                   totalCommentsRemoved counters + removedCount result |}
        else
          ret {| filesScanned := S (filesScanned counters);
                 filesTouched := filesTouched counters;
                 totalCommentsRemoved := totalCommentsRemoved counters |}
  | Link _ => ret counters
  | Other => ret counters
  end.

Definition walkAndCleanComments (rootDir : path) : M CommentStats :=
  attempt (Scandir rootDir)
    (fun w =>
       match lookup w rootDir with
       | Some (Dir entries) =>
           foldM (fun counters e => walk_entry_io rootDir (fst e) (snd e) counters)
             entries (stats walk_start) w
       | Some _ => (Throw (OtherError (js "ENOTDIR: not a directory, scandir")), w)
       | None => (Throw (OtherError (js "ENOENT: no such file or directory, scandir")), w)
       end).

Definition printSummary (pmConfig : table_value) (projectType : PROJECT_TYPE.t)
  (legacyPackages : list jsstring) (commentStats : CommentStats) : M unit :=
  console_log [] ;;;
  console_log (chalk "cyan" banner) ;;;
  console_log (chalk "cyan" (js "                    Summary")) ;;;
  console_log (chalk "cyan" banner) ;;;
  console_log [] ;;;
  console_log (js "Project type: " ++ PROJECT_TYPE.name projectType) ;;;
  console_log (js "Package manager: " ++ pm_id pmConfig) ;;;
  console_log (js "Biome version: " ++ BIOME_VERSION) ;;;
  console_log [] ;;;
  console_log (js "Legacy ESLint/Prettier packages found: "
                 ++ decimal (List.length legacyPackages)) ;;;
  console_log (js "Files scanned for ESLint comments: "
                 ++ decimal (filesScanned commentStats)) ;;;
  console_log (js "Files updated: " ++ decimal (filesTouched commentStats)) ;;;
  console_log (js "ESLint directive comments removed: "
                 ++ decimal (totalCommentsRemoved commentStats)) ;;;
  console_log [] ;;;
  console_log (chalk "green" (js "Next steps:")) ;;;
  match pmConfig with
  | Profile pm =>
      console_log (js "  " ++ lint_run pm) ;;;
      console_log (js "  " ++ lint_fix pm) ;;;
      console_log []
  | Inherited _ =>
      throw (OtherError (js "Cannot read properties of undefined (reading 'run')"))
  end.

Definition promptForSetup (legacyPackages : list jsstring) : M answers :=
  inquirer_prompt (0 <? List.length legacyPackages)%nat.

Definition hasLegacy (legacyPackages : list jsstring) : bool :=
  (0 <? List.length legacyPackages)%nat.

Definition is_true (b : option bool) : bool :=
  match b with Some true => true | _ => false end.

(** The body of the [try] block of [main]. *)
Definition main_try : M unit :=
  pkg <- readManifest ;;
  pmConfig <- detect ;;
  legacyPackages <- lift (match pkg with
                          | JNull => Throw (null_property "dependencies")
                          | _ => Ok (findLegacyTools pkg)
                          end) ;;
  let projectType := inferProjectType pkg in
  printBanner ;;;
  logger_info (js "Detected package manager: " ++ chalk "bold" (pm_id pmConfig)) ;;;
  logger_info (js "Found ESLint/Prettier related packages: "
                 ++ chalk "bold" (decimal (List.length legacyPackages))) ;;;
  when_ (hasLegacy legacyPackages)
    (logger_info (js "  " ++ join (js ", ") legacyPackages)) ;;;
  logger_info (js "Project type selected: "
                 ++ chalk "bold" (PROJECT_TYPE.name projectType)) ;;;
  console_log [] ;;;
  answers <- promptForSetup legacyPackages ;;
  (if hasLegacy legacyPackages && is_true (removeLegacy answers) then
     uninstallLegacyTools pmConfig legacyPackages ;;;
     pkgAfter <- readManifest ;;
     match pkgAfter with
     | JNull => throw (null_property "eslintConfig")
     | _ =>
         let (cleanedPkg, cleaned) := cleanEslintPrettierConfig pkgAfter in
         when_ cleaned
           (writePackageJson cleanedPkg ;;;
            logger_success
              (js "Removed eslintConfig/prettier configuration from package.json."))
     end
   else
     when_ (hasLegacy legacyPackages)
       (logger_warn (js "Keeping existing ESLint/Prettier packages as requested."))) ;;;
  installBiome pmConfig ;;;
  writeBiomeConfig projectType ;;;
  updatePackageJsonScripts ;;;
  commentStats <-
    (if cleanComments answers then
       console_log [] ;;;
       logger_step
         (js "Scanning project files and removing ESLint directive comments...") ;;;
       commentStats <- walkAndCleanComments PROJECT_ROOT ;;
       logger_success (js "Finished cleaning ESLint comments.") ;;;
       ret commentStats
     else ret (stats walk_start)) ;;
  logger_step (js "Running lint:fix to apply Biome fixes...") ;;;
  match pmConfig with
  | Profile pm => runCommand (lint_fix pm)
  | Inherited _ =>
      throw (OtherError (js "Cannot read properties of undefined (reading 'fix')"))
  end ;;;
  logger_success (js "Completed lint:fix.") ;;;
  printSummary pmConfig projectType legacyPackages commentStats.

(** [main]: the exit code of the process and the final world. *)
Definition main (w : world) : nat * world :=
  match main_try w with
  | (Ok _, w') => (0, w')
  | (Throw error, w') =>
      let report :=
        match error with
        | CliError m => logger_error m
        | OtherError _ =>
            logger_error (js "Unexpected error while running Biome setup:") ;;;
            console_error (inspect error)
        end in
      (1, snd (report w'))
  end.

End Host.

(* ===================================================================== *)
(** ** Vocabulary of the properties *)
(* ===================================================================== *)

Definition to_lower_ascii (c : code_unit) : code_unit :=
  if N.leb 65 c && N.leb c 90 then (c + 32)%N else c.

(** [name] contains [word] when letter case is ignored ([word] in lower
    case). *)
Definition contains_ignoring_case (word name : jsstring) : Prop :=
  exists pre mid post,
    name = pre ++ mid ++ post /\ map to_lower_ascii mid = word.

Definition legacy_name (name : jsstring) : Prop :=
  contains_ignoring_case (js "eslint") name
  \/ contains_ignoring_case (js "prettier") name.

(** The package names of a dependency group: the keys of the mapping. *)
Definition group_names (pkg : json) (field : jsstring) : list jsstring :=
  match member pkg field with
  | Some (JObject ms) => map fst ms
  | _ => []
  end.

Definition declared_names (pkg : json) : list jsstring :=
  flat_map (group_names pkg) dependencyFields.

(** A list without its repetitions: each element where it first occurs. *)
Fixpoint first_occurrences (l : list jsstring) : list jsstring :=
  match l with
  | [] => []
  | x :: l' =>
      x :: filter (fun y => negb (jsstring_eqb y x)) (first_occurrences l')
  end.

(** [s] starts with [word], letter case ignored as the [i] flag does. *)
Fixpoint prefix_ci (word s : jsstring) : bool :=
  match word, s with
  | [], _ => true
  | c :: word', x :: s' => char_eqb true x c && prefix_ci word' s'
  | _ :: _, [] => false
  end.

Definition is_lower (c : code_unit) : bool := N.leb 97 c && N.leb c 122.
Definition is_digit (c : code_unit) : bool := N.leb 48 c && N.leb c 57.

Definition scenario_D : json :=
  JObject
    [(js "devDependencies",
      JObject [(js "eslint", JString (js "^8.0.0"));
               (js "eslint-config-foo", JString (js "^1.0.0"))])].

Definition no_directive (content : jsstring) : Prop :=
  forall re, In re ESLINT_DIRECTIVE_PATTERNS -> String_match content re = None.

Definition SLASH : code_unit := 47%N.

Definition directive_line : jsstring :=
  js "// eslint-disable-next-line no-unused-vars".

(** The text after the line is empty or starts with a line terminator. *)
Definition at_line_end (post : jsstring) : Prop :=
  post = [] \/ exists post', post = LF :: post' \/ post = CR :: post'.

Definition directive_tail : jsstring :=
  js " eslint-disable-next-line no-unused-vars".

(** Where the walk writes: in directories reached through names that are
    not ignored. *)
Definition reached_from (directory : path) (p : path) : Prop :=
  exists rel, p = rel ++ directory /\ rel <> []
              /\ Forall (fun d => shouldIgnoreDir d = false) (tl rel).

Definition legacy_prefix (s : jsstring) : bool :=
  prefix_ci (js "eslint") s || prefix_ci (js "prettier") s.

(** Adding the elements of a list to a set, one after the other. *)
Definition add_all (set l : list jsstring) : list jsstring :=
  fold_left (fun set x => Set_add x set) l set.

(** A checkout [/repo/app] with a [yarn.lock] in the working directory and
    a [pnpm-lock.yaml] one level up, and no manifest at all. *)
Definition split_root : path := [js "app"; js "repo"].

Definition split_existsSync (p : path) : bool :=
  path_eqb p [js "yarn.lock"; js "app"; js "repo"]
  || path_eqb p [js "pnpm-lock.yaml"; js "repo"].

Definition no_file (p : path) : result jsstring :=
  Throw (OtherError (js "ENOENT: no such file or directory, open")).

Definition parse_fails (raw : jsstring) : result json :=
  Throw (OtherError (js "Unexpected end of JSON input")).

Definition QUOTE : code_unit := 34%N.

(** The text [{"packageManager":"<declared>"}] and what [JSON.parse] makes
    of it. *)
Definition declaring_text (declared : jsstring) : jsstring :=
  js "{" ++ [QUOTE] ++ js "packageManager" ++ [QUOTE] ++ js ":"
  ++ [QUOTE] ++ declared ++ [QUOTE] ++ js "}".

Definition declaring_manifest (declared : jsstring) : json :=
  JObject [(js "packageManager", JString declared)].

(** Scenario A: a project [/app] whose manifest declares [declared], next
    to a [yarn.lock]. *)
Definition scenario_root : path := [js "app"].

Definition scenario_existsSync (p : path) : bool :=
  path_eqb p [js "package.json"; js "app"]
  || path_eqb p [js "yarn.lock"; js "app"].

Definition scenario_readFileSync (declared : jsstring) (p : path)
  : result jsstring :=
  if path_eqb p [js "package.json"; js "app"]
  then Ok (declaring_text declared)
  else no_file p.

Definition scenario_parse (declared : jsstring) (raw : jsstring) : result json :=
  if jsstring_eqb raw (declaring_text declared)
  then Ok (declaring_manifest declared)
  else parse_fails raw.

(** A host for examples: commands succeed and change nothing, no call to
    the file system is refused, both questions are declined, styles are
    dropped. *)
Definition quiet_execSync (command : jsstring) (w : world) : exec_outcome * world :=
  (ExecOk, w).

Definition no_fault (call : fs_call) (w : world) : option exn := None.

Definition decline_all (ask : bool) : M answers :=
  ret {| removeLegacy := if ask then Some false else None;
         cleanComments := false |}.

Definition plain (style : string) (text : jsstring) : jsstring := text.

Definition no_stringify (v : json) : jsstring := [].

(** A project [/app] whose manifest holds [text], and an empty disk. *)
Definition project_with (text : jsstring) : world :=
  {| root := [(js "app", Dir [(js "package.json", File text)])]; console := [] |}.

Definition empty_disk : world := {| root := []; console := [] |}.

Definition demo_members : list (jsstring * json) :=
  [(js "name", JString (js "demo"));
   (js "scripts", JObject [(js "test", JString (js "jest"))]);
   (js "eslintConfig", JObject [])].

Definition demo_parse (raw : jsstring) : result json :=
  if jsstring_eqb raw (js "demo") then Ok (JObject demo_members)
  else parse_fails raw.

(** A tree with a dependency cache next to a source file. *)
Definition demo_tree : list (jsstring * fsnode) :=
  [(js "node_modules",
    Dir [(js "pkg", Dir [(js "index.js", File (js "// eslint-disable"))])]);
   (js "a.js", File (js "let a; // eslint-disable-line"))].

(** The number of matches each pattern finds, every pattern looking at the
    text the patterns before it have left. *)
Fixpoint match_counts (text : jsstring) (patterns : list RegExp.t) : list nat :=
  match patterns with
  | [] => []
  | re :: rest =>
      List.length (matches_from re text 0)
      :: match_counts (String_replace text re []) rest
  end.

(** A monorepo [/repo/app]: the only manifest is [/repo/package.json],
    which declares [declared]. *)
Definition monorepo_existsSync (p : path) : bool :=
  path_eqb p [js "package.json"; js "repo"].

Definition monorepo_readFileSync (declared : jsstring) (p : path)
  : result jsstring :=
  if path_eqb p [js "package.json"; js "repo"]
  then Ok (declaring_text declared)
  else no_file p.

(** The members of the [scripts] object of a manifest, none when [scripts]
    is not an object. *)
Definition scripts_of (ms : list (jsstring * json)) : list (jsstring * json) :=
  match assoc (js "scripts") ms with
  | Some (JObject scripts) => scripts
  | _ => []
  end.

Definition is_object (v : json) : bool :=
  match v with JObject _ => true | _ => false end.

(** [a] is [b] with some of its characters left out. *)
Inductive subsequence : jsstring -> jsstring -> Prop :=
| subsequence_nil : subsequence [] []
| subsequence_keep c a b : subsequence a b -> subsequence (c :: a) (c :: b)
| subsequence_drop c a b : subsequence a b -> subsequence a (c :: b).

(** The tree below [entries] holds a regular file of content [content] at
    the path [rpath], given root first. *)
Fixpoint holds_file (entries : list (jsstring * fsnode)) (rpath : list jsstring)
  (content : jsstring) : Prop :=
  match rpath with
  | [] => False
  | d :: rest =>
      match rest with
      | [] => In (d, File content) entries
      | _ => exists sub, In (d, Dir sub) entries /\ holds_file sub rest content
      end
  end.

(** The counters added up and the writes of [delta] after those of [st]. *)
Definition add_state (st delta : walk_state) : walk_state :=
  {| stats :=
       {| filesScanned := filesScanned (stats st) + filesScanned (stats delta);
          filesTouched := filesTouched (stats st) + filesTouched (stats delta);
          totalCommentsRemoved :=
            totalCommentsRemoved (stats st) + totalCommentsRemoved (stats delta) |};
     writes := writes st ++ writes delta |}.

(** A tree in which no directory lists a name twice. *)
Fixpoint distinct_names (n : fsnode) : Prop :=
  match n with
  | Dir entries =>
      NoDup (map fst entries)
      /\ (fix all (l : list (jsstring * fsnode)) : Prop :=
            match l with
            | [] => True
            | e :: l' => distinct_names (snd e) /\ all l'
            end) entries
  | _ => True
  end.

Definition STAR : code_unit := 42%N.

(** No slash of the text is followed by a slash or a star: the text holds
    neither [//] nor [/*]. *)
Fixpoint comment_start_free (s : jsstring) : bool :=
  match s with
  | [] => true
  | a :: t =>
      (negb (N.eqb a SLASH)
       || match t with
          | b :: _ => negb (N.eqb b SLASH || N.eqb b STAR)
          | [] => true
          end)
      && comment_start_free t
  end.

(** The counters of a walk that are consistent with one another. *)
Definition consistent (st : walk_state) : Prop :=
  filesTouched (stats st) <= filesScanned (stats st)
  /\ filesTouched (stats st) <= totalCommentsRemoved (stats st)
  /\ List.length (writes st) = filesTouched (stats st).

(** What a write of the walk is, seen from the directory [directory]. *)
Definition scrubbed_file (directory : path) (entries : list (jsstring * fsnode))
  (w : path * jsstring) : Prop :=
  exists rel original,
    fst w = rev rel ++ directory
    /\ holds_file entries rel original
    /\ isCodeFile (fst w) = true
    /\ snd w = modified (stripEslintCommentsFromContent original)
    /\ 0 < removedCount (stripEslintCommentsFromContent original)
    /\ List.length (snd w) < List.length original.

(** A workspace [/repo/app]: the working directory holds a manifest
    without [packageManager] and a [yarn.lock], the directory above a
    [pnpm-lock.yaml], and an installed dependency has a manifest of its
    own, which declares [bun@1.0.0]. *)
Definition workspace_root : path := [js "app"; js "repo"].

Definition workspace_manifest : path := [js "package.json"; js "app"; js "repo"].

Definition dependency_manifest : path :=
  [js "package.json"; js "dep"; js "node_modules"; js "app"; js "repo"].

Definition workspace_existsSync (p : path) : bool :=
  path_eqb p workspace_manifest
  || path_eqb p [js "yarn.lock"; js "app"; js "repo"]
  || path_eqb p [js "pnpm-lock.yaml"; js "repo"]
  || path_eqb p dependency_manifest.

Definition workspace_readFileSync (p : path) : result jsstring :=
  if path_eqb p workspace_manifest then Ok (js "{}")
  else if path_eqb p dependency_manifest then Ok (declaring_text (js "bun@1.0.0"))
  else no_file p.

Definition workspace_parse (raw : jsstring) : result json :=
  if jsstring_eqb raw (js "{}") then Ok (JObject [])
  else scenario_parse (js "bun@1.0.0") raw.

(** The text without its leading white space. *)
Fixpoint drop_ws (s : jsstring) : jsstring :=
  match s with
  | c :: t => if is_space c then drop_ws t else s
  | [] => []
  end.

(** [s] starts with [word], character for character. *)
Fixpoint starts_with (word s : jsstring) : bool :=
  match word, s with
  | [], _ => true
  | c :: word', x :: s' => N.eqb x c && starts_with word' s'
  | _ :: _, [] => false
  end.

(** [s] starts as a directive comment does: [//] or [/*], white space if
    any, then [eslint]. *)
Definition opens_directive (s : jsstring) : bool :=
  match s with
  | a :: b :: t =>
      N.eqb a SLASH && (N.eqb b SLASH || N.eqb b STAR)
      && starts_with (js "eslint") (drop_ws t)
  | _ => false
  end.

(** No directive comment starts anywhere in the text; other comments,
    paths and divisions may. *)
Fixpoint directive_free (s : jsstring) : bool :=
  match s with
  | [] => true
  | _ :: t => negb (opens_directive s) && directive_free t
  end.







(** The scrub applied [n] times in a row. *)
Definition scrub_times (n : nat) (content : jsstring) : jsstring :=
  Nat.iter n (fun c => modified (stripEslintCommentsFromContent c)) content.

(** The first pattern character a match must start with, when the pattern
    begins with one. *)
Fixpoint leading (r : regex) : option code_unit :=
  match r with
  | Chr c => Some c
  | Seq r1 _ => leading r1
  | _ => None
  end.

(* ===================================================================== *)
(** * Properties *)
(* ===================================================================== *)

Unset Implicit Arguments.

(** ** The matcher *)

Lemma jsstring_eqb_eq (a b : jsstring) : jsstring_eqb a b = true <-> a = b.
Proof.
  revert b; induction a as [|x a IH]; intros [|y b]; simpl; split;
    try congruence; try reflexivity.
  - intros H. apply andb_true_iff in H as [Hx Hab].
    apply N.eqb_eq in Hx. apply IH in Hab. congruence.
  - intros H. injection H as -> ->. rewrite N.eqb_refl. simpl. now apply IH.
Qed.

Lemma jsstring_eqb_refl (a : jsstring) : jsstring_eqb a a = true.
Proof. now apply jsstring_eqb_eq. Qed.

Lemma jsstring_eqb_neq (a b : jsstring) : jsstring_eqb a b = false <-> a <> b.
Proof.
  split.
  - intros H E. apply jsstring_eqb_eq in E. congruence.
  - intros H. destruct (jsstring_eqb a b) eqn:E; [|reflexivity].
    apply jsstring_eqb_eq in E. contradiction.
Qed.

Lemma jsstring_eqb_sym (a b : jsstring) : jsstring_eqb a b = jsstring_eqb b a.
Proof.
  destruct (jsstring_eqb a b) eqn:E.
  - apply jsstring_eqb_eq in E. subst. symmetry. apply jsstring_eqb_refl.
  - symmetry. apply jsstring_eqb_neq. apply jsstring_eqb_neq in E. congruence.
Qed.

(** What a continuation is handed is never longer than the input. *)
Lemma star_greedy_rest p s k t :
  star_greedy p s k = Some t ->
  exists s', k s' = Some t /\ List.length s' <= List.length s.
Proof.
  induction s as [|c s IH]; simpl.
  - intros H. exists []. auto.
  - destruct (p c).
    + destruct (star_greedy p s k) eqn:E.
      * intros H. injection H as ->.
        destruct (IH eq_refl) as (s' & Hk & Hl). exists s'. split; [assumption|lia].
      * intros H. exists (c :: s). auto.
    + intros H. exists (c :: s). auto.
Qed.

Lemma star_lazy_rest p s k t :
  star_lazy p s k = Some t ->
  exists s', k s' = Some t /\ List.length s' <= List.length s.
Proof.
  induction s as [|c s IH]; simpl.
  - destruct (k []) eqn:E; [|discriminate].
    intros H. injection H as ->. exists []. auto.
  - destruct (k (c :: s)) eqn:E.
    + intros H. injection H as ->. exists (c :: s). auto.
    + destruct (p c); [|discriminate].
      intros H. destruct (IH H) as (s' & Hk & Hl). exists s'. split; [assumption|lia].
Qed.

Ltac close_rest := repeat split; auto; try lia; try congruence.

Lemma rmatch_rest ic r : forall s k t,
  rmatch ic r s k = Some t ->
  exists s', k s' = Some t /\ List.length s' <= List.length s
             /\ (leading r <> None -> List.length s' < List.length s).
Proof.
  induction r as [|c|cl|cl|cl|cl|r1 IH1 r2 IH2|r1 IH1 r2 IH2]; intros s k t; simpl.
  - intros H. exists s. close_rest.
  - destruct s as [|x s]; [discriminate|].
    destruct (char_eqb ic x c); [|discriminate].
    intros H. exists s. simpl. close_rest.
  - destruct s as [|x s]; [discriminate|].
    destruct (in_class ic cl x); [|discriminate].
    intros H. exists s. simpl. close_rest.
  - intros H. destruct (star_greedy_rest _ _ _ _ H) as (s' & Hk & Hl).
    exists s'. close_rest.
  - intros H. destruct (star_lazy_rest _ _ _ _ H) as (s' & Hk & Hl).
    exists s'. close_rest.
  - destruct s as [|x s]; [discriminate|].
    destruct (in_class ic cl x); [|discriminate].
    intros H. destruct (star_greedy_rest _ _ _ _ H) as (s' & Hk & Hl).
    exists s'. simpl. close_rest.
  - intros H. destruct (IH1 _ _ _ H) as (s1 & H1 & Hl1 & Hs1).
    destruct (IH2 _ _ _ H1) as (s2 & H2 & Hl2 & _).
    exists s2. repeat split; auto; [lia|].
    intros Hlead. specialize (Hs1 Hlead). lia.
  - destruct (rmatch ic r1 s k) eqn:E.
    + intros H. injection H as ->.
      destruct (IH1 _ _ _ E) as (s' & Hk & Hl & _).
      exists s'. close_rest.
    + intros H. destruct (IH2 _ _ _ H) as (s' & Hk & Hl & _).
      exists s'. close_rest.
Qed.

(** A match lies within the text, and is not empty when the pattern starts
    with a character. *)
Lemma exec_at_bounds re s len :
  exec_at re s = Some len ->
  len <= List.length s /\ (leading (pattern re) <> None -> 1 <= len).
Proof.
  unfold exec_at. destruct (rmatch _ _ s Some) as [rest|] eqn:E; [|discriminate].
  intros H. injection H as <-.
  destruct (rmatch_rest _ _ _ _ _ E) as (s' & Hk & Hl & Hs).
  injection Hk as ->. split; [lia|].
  intros Hlead. specialize (Hs Hlead). lia.
Qed.

(** A pattern that starts with a character matches only where that
    character stands. *)
Lemma rmatch_leading r a : leading r = Some a ->
  forall s k, rmatch false r s k <> None -> exists s', s = a :: s'.
Proof.
  induction r as [|c|cl|cl|cl|cl|r1 IH1 r2 IH2|r1 IH1 r2 IH2];
    simpl; try discriminate.
  - intros H s k. injection H as ->.
    destruct s as [|x s]; [congruence|].
    unfold char_eqb, canonicalize. simpl.
    destruct (N.eqb x a) eqn:E; [|congruence].
    apply N.eqb_eq in E. subst. intros _. now exists s.
  - intros H s k Hm. exact (IH1 H s _ Hm).
Qed.

Lemma exec_at_leading re a s :
  ignoreCase re = false -> leading (pattern re) = Some a ->
  exec_at re s <> None -> exists s', s = a :: s'.
Proof.
  intros Hic Hlead. unfold exec_at. rewrite Hic.
  destruct (rmatch false (pattern re) s Some) eqn:E; [|congruence].
  intros _. apply (rmatch_leading _ _ Hlead s Some). congruence.
Qed.

(** ** Global match and replace *)

(** Without a match, [replace] returns the text as it is. *)
Lemma replace_without_match re rep s :
  matches_from re s 0 = [] -> replace_from re rep s 0 = s.
Proof.
  induction s as [|c s IH]; simpl.
  - destruct (exec_at re []); [discriminate|reflexivity].
  - destruct (exec_at re (c :: s)); [discriminate|].
    intros H. now rewrite IH.
Qed.

Lemma String_match_none s re :
  String_match s re = None <-> matches_from re s 0 = [].
Proof.
  unfold String_match. destruct (matches_from re s 0); split;
    intros H; try reflexivity; discriminate.
Qed.

Lemma String_replace_without_match s re rep :
  String_match s re = None -> String_replace s re rep = s.
Proof.
  unfold String_match, String_replace.
  destruct (matches_from re s 0) eqn:E; [|discriminate].
  intros _. now apply replace_without_match.
Qed.

(** Each match of a pattern that starts with a character takes at least
    one character out of the text. *)
Lemma replace_from_length re : leading (pattern re) <> None ->
  forall s skip, skip <= List.length s ->
    List.length (replace_from re [] s skip)
    + List.length (matches_from re s skip) + skip <= List.length s.
Proof.
  intros Hlead. induction s as [|c s IH]; intros skip Hskip.
  - destruct skip as [|n]; [|simpl in Hskip; lia]. simpl.
    destruct (exec_at re []) as [len|] eqn:E; [|simpl; lia].
    apply exec_at_bounds in E as [Hle Hne]. specialize (Hne Hlead).
    simpl in Hle. lia.
  - destruct skip as [|n].
    + simpl. destruct (exec_at re (c :: s)) as [len|] eqn:E.
      * apply exec_at_bounds in E as [Hle Hne]. specialize (Hne Hlead).
        destruct len as [|m]; [lia|]. simpl in Hle |- *.
        specialize (IH m ltac:(lia)). lia.
      * simpl. specialize (IH 0 ltac:(lia)). lia.
    + simpl in Hskip |- *. specialize (IH n ltac:(lia)). lia.
Qed.

(** ** The eight patterns *)

Lemma patterns_leading re :
  In re ESLINT_DIRECTIVE_PATTERNS ->
  ignoreCase re = false /\ leading (pattern re) = Some 47%N.
Proof.
  unfold ESLINT_DIRECTIVE_PATTERNS. simpl.
  intros H.
  repeat (destruct H as [<-|H]; [split; reflexivity|]).
  contradiction.
Qed.

(** ** One pass of the scrubber *)

Lemma strip_steps_no_match patterns content count :
  (forall re, In re patterns -> String_match content re = None) ->
  fold_left strip_step patterns {| modified := content; removedCount := count |}
  = {| modified := content; removedCount := count |}.
Proof.
  induction patterns as [|re rest IH]; intros H; simpl; [reflexivity|].
  unfold strip_step at 2. simpl.
  rewrite (H re (or_introl eq_refl)).
  rewrite String_replace_without_match by (apply H; now left).
  apply IH. intros re' Hin. apply H. now right.
Qed.

Lemma strip_no_directive content :
  no_directive content ->
  stripEslintCommentsFromContent content
  = {| modified := content; removedCount := 0 |}.
Proof. apply strip_steps_no_match. Qed.

Lemma strip_steps_length patterns :
  (forall re, In re patterns -> leading (pattern re) <> None) ->
  forall acc,
    List.length (modified (fold_left strip_step patterns acc))
    + removedCount (fold_left strip_step patterns acc)
    <= List.length (modified acc) + removedCount acc.
Proof.
  induction patterns as [|re rest IH]; intros H acc; simpl; [lia|].
  specialize (IH (fun r Hr => H r (or_intror Hr)) (strip_step acc re)).
  assert (Hstep : List.length (modified (strip_step acc re))
                  + removedCount (strip_step acc re)
                  <= List.length (modified acc) + removedCount acc).
  { unfold strip_step, String_match, String_replace. simpl.
    pose proof (replace_from_length re (H re (or_introl eq_refl))
                  (modified acc) 0 ltac:(lia)) as Hl.
    destruct (matches_from re (modified acc) 0); simpl in *; lia. }
  lia.
Qed.

Lemma strip_length content :
  List.length (modified (stripEslintCommentsFromContent content))
  + removedCount (stripEslintCommentsFromContent content)
  <= List.length content.
Proof.
  assert (Hlead : forall re, In re ESLINT_DIRECTIVE_PATTERNS ->
                         leading (pattern re) <> None).
  { intros re Hin. destruct (patterns_leading re Hin) as [_ ->]. discriminate. }
  pose proof (strip_steps_length _ Hlead {| modified := content; removedCount := 0 |}) as H.
  unfold stripEslintCommentsFromContent. cbn [modified removedCount] in H.
  rewrite Nat.add_0_r in H. exact H.
Qed.

(** The count only grows along the patterns, so a zero total means that no
    pattern found a match. *)
Lemma strip_steps_count_mono patterns acc :
  removedCount acc <= removedCount (fold_left strip_step patterns acc).
Proof.
  revert acc. induction patterns as [|re rest IH]; intros acc; simpl; [lia|].
  specialize (IH (strip_step acc re)).
  assert (removedCount acc <= removedCount (strip_step acc re)).
  { unfold strip_step. simpl. destruct (String_match (modified acc) re); lia. }
  lia.
Qed.

Lemma strip_steps_zero patterns acc :
  removedCount (fold_left strip_step patterns acc) = removedCount acc ->
  modified (fold_left strip_step patterns acc) = modified acc.
Proof.
  revert acc. induction patterns as [|re rest IH]; intros acc; simpl; [reflexivity|].
  intros H.
  pose proof (strip_steps_count_mono rest (strip_step acc re)) as Hm.
  assert (Hs : removedCount acc <= removedCount (strip_step acc re)).
  { unfold strip_step. simpl. destruct (String_match (modified acc) re); lia. }
  assert (Heq : removedCount (strip_step acc re) = removedCount acc) by lia.
  rewrite IH by lia.
  unfold strip_step in Heq |- *. simpl in *.
  destruct (String_match (modified acc) re) as [ms|] eqn:E.
  - unfold String_match in E. destruct (matches_from re (modified acc) 0) eqn:E';
      [discriminate|]. injection E as <-. simpl in Heq. lia.
  - now apply String_replace_without_match.
Qed.

Lemma strip_zero_fixed content :
  removedCount (stripEslintCommentsFromContent content) = 0 ->
  stripEslintCommentsFromContent content
  = {| modified := content; removedCount := 0 |}.
Proof.
  intros H.
  assert (Hm : modified (stripEslintCommentsFromContent content) = content).
  { apply (strip_steps_zero ESLINT_DIRECTIVE_PATTERNS
             {| modified := content; removedCount := 0 |}). exact H. }
  destruct (stripEslintCommentsFromContent content) as [m c].
  cbn [modified removedCount] in *. now subst.
Qed.

Lemma scrub_converges : forall n content, List.length content <= n ->
  exists k, k <= List.length content /\
    stripEslintCommentsFromContent (scrub_times k content)
    = {| modified := scrub_times k content; removedCount := 0 |}.
Proof.
  induction n as [|n IH]; intros content Hn.
  - exists 0. split; [lia|]. simpl. apply strip_zero_fixed.
    pose proof (strip_length content). lia.
  - destruct (removedCount (stripEslintCommentsFromContent content)) eqn:E.
    + exists 0. split; [lia|]. simpl. now apply strip_zero_fixed.
    + pose proof (strip_length content) as Hl.
      destruct (IH (modified (stripEslintCommentsFromContent content)) ltac:(lia))
        as (k & Hk & Hfix).
      exists (S k). split; [lia|].
      unfold scrub_times in *. rewrite Nat.iter_succ_r. exact Hfix.
Qed.

(** ** Scanning text without a slash *)

Lemma exec_at_not_slash re s :
  In re ESLINT_DIRECTIVE_PATTERNS ->
  (forall s', s <> SLASH :: s') -> exec_at re s = None.
Proof.
  intros Hin Hs. destruct (patterns_leading re Hin) as [Hic Hlead].
  destruct (exec_at re s) eqn:E; [|reflexivity].
  destruct (exec_at_leading re _ s Hic Hlead) as [s' ->]; [congruence|].
  now elim (Hs s').
Qed.

(** Text free of slashes passes through a directive pattern untouched. *)
Lemma scan_slash_free re rep pre rest :
  In re ESLINT_DIRECTIVE_PATTERNS -> ~ In SLASH pre ->
  matches_from re (pre ++ rest) 0 = matches_from re rest 0
  /\ replace_from re rep (pre ++ rest) 0 = pre ++ replace_from re rep rest 0.
Proof.
  intros Hin. induction pre as [|c pre IH]; intros Hfree; [now split|].
  assert (Hc : c <> SLASH) by (intros ->; apply Hfree; now left).
  assert (Hpre : ~ In SLASH pre) by (intros H; apply Hfree; now right).
  destruct (IH Hpre) as [IHm IHr].
  simpl. rewrite (exec_at_not_slash re (c :: pre ++ rest) Hin)
    by (intros s' E; injection E as E _; contradiction).
  rewrite IHm, IHr. now split.
Qed.

Lemma matches_slash_free re s :
  In re ESLINT_DIRECTIVE_PATTERNS -> ~ In SLASH s -> matches_from re s 0 = [].
Proof.
  intros Hin Hfree.
  destruct (scan_slash_free re [] s [] Hin Hfree) as [Hm _].
  rewrite app_nil_r in Hm. rewrite Hm. cbn [matches_from].
  now rewrite (exec_at_not_slash re [] Hin) by discriminate.
Qed.

Lemma match_slash_free re s :
  In re ESLINT_DIRECTIVE_PATTERNS -> ~ In SLASH s -> String_match s re = None.
Proof. intros Hin Hfree. apply String_match_none. now apply matches_slash_free. Qed.

Lemma matches_from_cons_none re c s :
  exec_at re (c :: s) = None ->
  matches_from re (c :: s) 0 = matches_from re s 0.
Proof. intros E. cbn [matches_from]. now rewrite E. Qed.

Lemma replace_from_cons_none re rep c s :
  exec_at re (c :: s) = None ->
  replace_from re rep (c :: s) 0 = c :: replace_from re rep s 0.
Proof. intros E. cbn [replace_from]. now rewrite E. Qed.

(** Passing over the characters of a match. *)
Lemma skip_over re rep a b :
  matches_from re (a ++ b) (List.length a) = matches_from re b 0
  /\ replace_from re rep (a ++ b) (List.length a) = replace_from re rep b 0.
Proof. induction a as [|c a IH]; [now split|]. simpl. exact IH. Qed.

(** A match of the whole of [a] at the start of [a ++ b]. *)
Lemma scan_match_head re rep c a b :
  exec_at re (c :: a ++ b) = Some (S (List.length a)) ->
  matches_from re (c :: a ++ b) 0 = (c :: a) :: matches_from re b 0
  /\ replace_from re rep (c :: a ++ b) 0 = rep ++ replace_from re rep b 0.
Proof.
  intros E. cbn [matches_from replace_from]. rewrite E.
  cbn [pred app]. destruct (skip_over re rep a b) as [-> ->].
  split; [|reflexivity].
  f_equal. cbn [firstn]. f_equal.
  rewrite firstn_app, Nat.sub_diag, firstn_all. cbn [firstn]. apply app_nil_r.
Qed.

Lemma strip_step_no_match s n re :
  String_match s re = None ->
  strip_step {| modified := s; removedCount := n |} re
  = {| modified := s; removedCount := n |}.
Proof.
  intros H. unfold strip_step. cbn [modified removedCount]. rewrite H.
  now rewrite String_replace_without_match.
Qed.

(** ** Scenario C: a directive on its own line *)

Lemma directive_tail_slash_free : ~ In SLASH directive_tail.
Proof. vm_compute. intuition discriminate. Qed.

Lemma directive_line_eq : directive_line = SLASH :: SLASH :: directive_tail.
Proof. vm_compute. reflexivity. Qed.

Lemma directive_line_match post : at_line_end post ->
  exec_at (line_directive "eslint-disable") (directive_line ++ post)
  = Some (List.length directive_line).
Proof.
  intros H. unfold exec_at.
  assert (E : rmatch (ignoreCase (line_directive "eslint-disable"))
                (pattern (line_directive "eslint-disable"))
                (directive_line ++ post) Some = Some post).
  { destruct H as [->|[post' [->| ->]]]; vm_compute; reflexivity. }
  rewrite E, length_app. f_equal. lia.
Qed.

Lemma first_four_patterns re :
  In re (firstn 4 ESLINT_DIRECTIVE_PATTERNS) -> In re ESLINT_DIRECTIVE_PATTERNS.
Proof.
  intros Hin. rewrite <- (firstn_skipn 4 ESLINT_DIRECTIVE_PATTERNS).
  apply in_or_app. now left.
Qed.

(** *** Where a directive comment can start *)

Lemma in_class_ws c : in_class false ws c = is_space c.
Proof. unfold in_class, ws. cbn [existsb atom_matches xorb]. apply orb_false_r. Qed.

Lemma starts_with_head a word c s :
  starts_with (a :: word) (c :: s) = true -> c = a.
Proof.
  cbn [starts_with]. intros H. apply andb_true_iff in H as [H _].
  now apply N.eqb_eq.
Qed.

Lemma starts_with_trans w : forall word s,
  starts_with w word = true -> starts_with word s = true ->
  starts_with w s = true.
Proof.
  induction w as [|a w IH]; intros word s; [reflexivity|].
  destruct word as [|c word]; [discriminate|].
  destruct s as [|x s]; [discriminate|].
  cbn [starts_with]. intros H1 H2.
  apply andb_true_iff in H1 as [Ea H1]. apply andb_true_iff in H2 as [Ec H2].
  apply N.eqb_eq in Ea. apply N.eqb_eq in Ec. subst.
  rewrite N.eqb_refl. exact (IH _ _ H1 H2).
Qed.

(** A prefix test that succeeds before a character foreign to the word
    does not depend on what follows that character. *)
Lemma starts_with_stop w c : ~ In c w -> forall v x y,
  starts_with w (v ++ c :: x) = true -> starts_with w (v ++ y) = true.
Proof.
  induction w as [|a w IH]; intros Hc v x y; [reflexivity|].
  destruct v as [|z v]; cbn [app].
  - intros H. apply starts_with_head in H. elim Hc. now left.
  - cbn [starts_with]. intros H. apply andb_true_iff in H as [-> H].
    apply (IH (fun Hin => Hc (or_intror Hin)) v x y H).
Qed.

Lemma rmatch_lit_starts word : forall s k,
  rmatch false (lit_chars word) s k <> None -> starts_with word s = true.
Proof.
  induction word as [|c word IH]; intros s k; [reflexivity|].
  assert (E : rmatch false (lit_chars (c :: word)) s k
              = rmatch false (Chr c) s (fun t => rmatch false (lit_chars word) t k))
    by (destruct word; reflexivity).
  rewrite E. cbn [rmatch starts_with]. destruct s as [|x s]; [congruence|].
  unfold char_eqb, canonicalize. cbn [andb].
  destruct (N.eqb x c); [|congruence]. apply IH.
Qed.

Lemma no_eslint_after_slash x :
  starts_with (js "eslint") (drop_ws (SLASH :: x)) = false.
Proof. reflexivity. Qed.

Lemma star_ws_eslint (k : cont) :
  (forall t, k t <> None -> starts_with (js "eslint") t = true) ->
  forall s, star_greedy (in_class false ws) s k <> None ->
            starts_with (js "eslint") (drop_ws s) = true.
Proof.
  intros Hk. induction s as [|c s IH]; cbn [star_greedy drop_ws]; [apply Hk|].
  rewrite in_class_ws. destruct (is_space c) eqn:Sp; [|apply Hk].
  destruct (star_greedy (in_class false ws) s k) eqn:G.
  - intros _. apply IH. congruence.
  - intros H. apply Hk in H.
    change (js "eslint") with (101%N :: js "slint") in H.
    apply starts_with_head in H. subst c. discriminate.
Qed.

Lemma rmatch_opener b word R s k :
  starts_with (js "eslint") word = true ->
  rmatch false
    (Seq (Seq (Chr SLASH) (Chr b)) (Seq (Star ws) (Seq (lit_chars word) R))) s k
  <> None ->
  exists t, s = SLASH :: b :: t
            /\ starts_with (js "eslint") (drop_ws t) = true.
Proof.
  intros Hword. cbn [rmatch]. unfold char_eqb, canonicalize. cbn [andb].
  destruct s as [|x s]; [congruence|].
  destruct (N.eqb x SLASH) eqn:Ex; [|congruence].
  destruct s as [|y s]; [congruence|].
  destruct (N.eqb y b) eqn:Ey; [|congruence].
  apply N.eqb_eq in Ex. apply N.eqb_eq in Ey. subst. intros H.
  exists s. split; [reflexivity|].
  apply star_ws_eslint in H; [exact H|].
  intros t Ht. apply rmatch_lit_starts in Ht.
  exact (starts_with_trans _ _ _ Hword Ht).
Qed.

Lemma patterns_opener re :
  In re ESLINT_DIRECTIVE_PATTERNS ->
  ignoreCase re = false
  /\ exists b word R,
       pattern re
       = Seq (Seq (Chr SLASH) (Chr b)) (Seq (Star ws) (Seq (lit_chars word) R))
       /\ (b = SLASH \/ b = STAR)
       /\ starts_with (js "eslint") word = true.
Proof.
  unfold ESLINT_DIRECTIVE_PATTERNS. cbn [In].
  intros [<-|[<-|[<-|[<-|[<-|[<-|[<-|[<-|[]]]]]]]]];
    (split; [reflexivity|]).
  - exists STAR, (js "eslint-disable"), (Seq (StarLazy any) (lit "*/")). auto.
  - exists STAR, (js "eslint-enable"), (Seq (StarLazy any) (lit "*/")). auto.
  - exists STAR, (js "eslint-env"), (Seq (StarLazy any) (lit "*/")). auto.
  - exists STAR, (js "eslint"),
      (Seq (Plus ws) (Seq (Star not_star) (lit "*/"))). auto.
  - exists SLASH, (js "eslint-disable"), (Star not_eol). auto.
  - exists SLASH, (js "eslint-enable"), (Star not_eol). auto.
  - exists SLASH, (js "eslint-env"), (Star not_eol). auto.
  - exists SLASH, (js "eslint-"), (Star not_eol). auto.
Qed.

(** A match of a directive pattern can only start where a directive
    comment opens. *)
Lemma exec_at_opens re s :
  In re ESLINT_DIRECTIVE_PATTERNS -> exec_at re s <> None ->
  opens_directive s = true.
Proof.
  intros Hin. destruct (patterns_opener re Hin)
    as (Hic & b & word & R & Hp & Hb & Hword).
  unfold exec_at. rewrite Hic, Hp.
  destruct (rmatch false _ s Some) eqn:E; [|congruence]. intros _.
  destruct (rmatch_opener b word R s Some Hword) as (t & -> & Ht); [congruence|].
  cbn [opens_directive]. rewrite Ht, N.eqb_refl.
  destruct Hb as [-> | ->]; reflexivity.
Qed.

Lemma directive_free_app a b :
  directive_free (a ++ b) = true -> directive_free b = true.
Proof.
  induction a as [|c a IH]; [auto|]. cbn [app directive_free].
  intros H. apply andb_true_iff in H as [_ H]. now apply IH.
Qed.

Lemma directive_free_at a s :
  directive_free (a ++ s) = true -> s <> [] -> opens_directive s = false.
Proof.
  intros H Hs. apply directive_free_app in H.
  destruct s as [|c t]; [contradiction|]. cbn [directive_free] in H.
  apply andb_true_iff in H as [H _]. now apply negb_true_iff in H.
Qed.

Lemma matches_directive_free re s :
  In re ESLINT_DIRECTIVE_PATTERNS -> directive_free s = true ->
  matches_from re s 0 = [].
Proof.
  intros Hin. induction s as [|c t IH]; intros Hfree.
  - cbn [matches_from]. destruct (exec_at re []) eqn:E; [|reflexivity].
    assert (H : opens_directive [] = true)
      by (apply (exec_at_opens re); [assumption|congruence]).
    discriminate.
  - rewrite matches_from_cons_none.
    + apply IH. exact (directive_free_app [c] t Hfree).
    + destruct (exec_at re (c :: t)) eqn:E; [|reflexivity].
      assert (H : opens_directive (c :: t) = true)
        by (apply (exec_at_opens re); [assumption|congruence]).
      rewrite (directive_free_at [] (c :: t) Hfree) in H by discriminate.
      discriminate.
Qed.

(** Text in which the pattern matches at no position is passed over. *)
Lemma scan_guarded re rep rest pre :
  (forall a u, pre = a ++ u -> u <> [] -> exec_at re (u ++ rest) = None) ->
  matches_from re (pre ++ rest) 0 = matches_from re rest 0
  /\ replace_from re rep (pre ++ rest) 0 = pre ++ replace_from re rep rest 0.
Proof.
  induction pre as [|c pre IH]; intros H; [now split|].
  destruct IH as [IHm IHr].
  { intros a u E. apply (H (c :: a) u). now rewrite E. }
  assert (E : exec_at re (c :: pre ++ rest) = None)
    by (apply (H [] (c :: pre)); [reflexivity|discriminate]).
  cbn [app].
  rewrite (matches_from_cons_none _ _ _ E), (replace_from_cons_none _ rep _ _ E).
  rewrite IHm, IHr. now split.
Qed.

(** A directive comment that opens before the line, in a text with the
    line, opens as well in the text without it: the line starts with [//],
    which neither is white space nor belongs to [eslint]. *)
Lemma opens_before_line u post :
  u <> [] ->
  opens_directive (u ++ directive_line ++ post) = true ->
  opens_directive (u ++ post) = true.
Proof.
  intros Hu. rewrite directive_line_eq.
  destruct u as [|a [|b t]]; [contradiction| |].
  - cbn [app opens_directive]. rewrite no_eslint_after_slash.
    rewrite andb_false_r. discriminate.
  - cbn [app opens_directive]. intros H.
    apply andb_true_iff in H as [-> H]. cbn [andb].
    assert (Hdrop : forall v x y,
              starts_with (js "eslint") (drop_ws (v ++ SLASH :: x)) = true ->
              starts_with (js "eslint") (drop_ws (v ++ y)) = true).
    { clear. intros v. induction v as [|c v IH]; intros x y.
      - cbn [app]. rewrite no_eslint_after_slash. discriminate.
      - cbn [app drop_ws]. destruct (is_space c); [apply IH|].
        apply (starts_with_stop (js "eslint") SLASH
                 ltac:(vm_compute; intuition discriminate) (c :: v)). }
    exact (Hdrop _ _ _ H).
Qed.

(** No match of a directive pattern starts in the text before the line. *)
Lemma scan_before_line re rep pre post :
  In re ESLINT_DIRECTIVE_PATTERNS -> directive_free (pre ++ post) = true ->
  matches_from re (pre ++ directive_line ++ post) 0
  = matches_from re (directive_line ++ post) 0
  /\ replace_from re rep (pre ++ directive_line ++ post) 0
     = pre ++ replace_from re rep (directive_line ++ post) 0.
Proof.
  intros Hin Hfree. apply scan_guarded. intros a u -> Hu.
  destruct (exec_at re (u ++ directive_line ++ post)) eqn:E; [|reflexivity].
  assert (H : opens_directive (u ++ directive_line ++ post) = true)
    by (apply (exec_at_opens re); [assumption|congruence]).
  apply (opens_before_line u post Hu) in H.
  rewrite <- app_assoc in Hfree.
  rewrite (directive_free_at a (u ++ post) Hfree) in H; [discriminate|].
  destruct u; [contradiction|discriminate].
Qed.

(** The block patterns find nothing in the line. *)
Lemma directive_line_no_block re post :
  In re (firstn 4 ESLINT_DIRECTIVE_PATTERNS) -> directive_free post = true ->
  matches_from re (directive_line ++ post) 0 = [].
Proof.
  intros Hin Hpost.
  assert (Hrest : matches_from re (directive_tail ++ post) 0 = []).
  { destruct (scan_slash_free re [] directive_tail post
                (first_four_patterns re Hin) directive_tail_slash_free) as [-> _].
    apply matches_directive_free; [now apply first_four_patterns|exact Hpost]. }
  unfold ESLINT_DIRECTIVE_PATTERNS in Hin. cbn [firstn In] in Hin.
  assert (E1 : exec_at re (SLASH :: SLASH :: directive_tail ++ post) = None).
  { repeat (destruct Hin as [<-|Hin]; [vm_compute; reflexivity|]). contradiction. }
  assert (E2 : exec_at re (SLASH :: directive_tail ++ post) = None).
  { repeat (destruct Hin as [<-|Hin]; [vm_compute; reflexivity|]). contradiction. }
  rewrite directive_line_eq. cbn [app].
  now rewrite (matches_from_cons_none _ _ _ E1), (matches_from_cons_none _ _ _ E2).
Qed.

(** The line pattern for [eslint-disable] finds the line, once. *)
Lemma directive_line_found pre post :
  directive_free (pre ++ post) = true -> at_line_end post ->
  matches_from (line_directive "eslint-disable") (pre ++ directive_line ++ post) 0
  = [directive_line]
  /\ replace_from (line_directive "eslint-disable") []
       (pre ++ directive_line ++ post) 0
     = pre ++ post.
Proof.
  intros Hfree Hend.
  assert (Hline : In (line_directive "eslint-disable") ESLINT_DIRECTIVE_PATTERNS).
  { unfold ESLINT_DIRECTIVE_PATTERNS. cbn [In]. tauto. }
  assert (Hpost : matches_from (line_directive "eslint-disable") post 0 = []).
  { apply matches_directive_free; [exact Hline|].
    exact (directive_free_app pre post Hfree). }
  destruct (scan_before_line (line_directive "eslint-disable") []
              pre post Hline Hfree) as [-> ->].
  pose proof (directive_line_match post Hend) as E.
  rewrite directive_line_eq in E |- *.
  change ((SLASH :: SLASH :: directive_tail) ++ post)
    with (SLASH :: (SLASH :: directive_tail) ++ post) in E |- *.
  destruct (scan_match_head (line_directive "eslint-disable") []
              SLASH (SLASH :: directive_tail) post E) as [-> ->].
  rewrite Hpost, (replace_without_match _ [] post Hpost).
  split; reflexivity.
Qed.

Lemma match_counts_cons text re rest :
  match_counts text (re :: rest)
  = List.length (matches_from re text 0)
    :: match_counts (String_replace text re []) rest.
Proof. reflexivity. Qed.

Lemma match_counts_no_match text re rest :
  matches_from re text 0 = [] ->
  match_counts text (re :: rest) = 0 :: match_counts text rest.
Proof.
  intros H. cbn [match_counts]. rewrite H. unfold String_replace.
  now rewrite (replace_without_match re [] text H).
Qed.

(** ** The scrubber: claims C1, C4 and C6 *)

(** C1, as stated, fails: on [//* eslint-disable */* eslint-disable */] the
    first pattern deletes the inner comment, which fuses the text around it
    into a new block directive that no later pattern of the same pass
    removes; the second pass removes it, with count 1. *)
Lemma scrub_twice_still_removes :
  let content := js "//* eslint-disable */* eslint-disable */" in
  let first := stripEslintCommentsFromContent content in
  let second := stripEslintCommentsFromContent (modified first) in
  first = {| modified := js "/* eslint-disable */"; removedCount := 1 |}
  /\ second = {| modified := []; removedCount := 1 |}
  /\ ~ (removedCount second = 0 /\ modified second = modified first).
Proof.
  vm_compute. repeat split; try reflexivity. intros [H _]. discriminate.
Qed.

(** C1 (amended): the scrub converges without being idempotent.  An
    application never counts more occurrences than it removes characters;
    an application that counts none returns its input, so that every later
    application counts none either; and for every content at most
    length-many applications lead to such a fixed point. *)
Theorem scrub_reaches_fixed_point content :
  let first := stripEslintCommentsFromContent content in
  List.length (modified first) + removedCount first <= List.length content
  /\ (removedCount first = 0 ->
      modified first = content
      /\ stripEslintCommentsFromContent (modified first)
         = {| modified := content; removedCount := 0 |})
  /\ exists n, n <= List.length content /\
       stripEslintCommentsFromContent (scrub_times n content)
       = {| modified := scrub_times n content; removedCount := 0 |}.
Proof.
  cbv zeta. split; [apply strip_length|]. split.
  - intros H. pose proof (strip_zero_fixed content H) as E.
    rewrite E. cbn [modified]. split; [reflexivity|exact E].
  - apply (scrub_converges (List.length content)). lia.
Qed.

Lemma scrub_reaches_fixed_point_witness :
  removedCount (stripEslintCommentsFromContent (js "const x = 1;")) = 0
  /\ modified (stripEslintCommentsFromContent (js "const x = 1;")) = js "const x = 1;".
Proof.
  split; [vm_compute; reflexivity|].
  apply (proj1 (proj2 (scrub_reaches_fixed_point (js "const x = 1;")))).
  vm_compute. reflexivity.
Defined.

Lemma strip_steps_sum patterns : forall acc,
  removedCount (fold_left strip_step patterns acc)
  = removedCount acc + list_sum (match_counts (modified acc) patterns).
Proof.
  induction patterns as [|re rest IH]; intros acc;
    cbn [fold_left match_counts list_sum fold_right]; [lia|].
  rewrite IH. unfold strip_step, String_match. cbn [modified removedCount].
  fold (list_sum (match_counts (String_replace (modified acc) re []) rest)).
  destruct (matches_from re (modified acc) 0); cbn [List.length]; lia.
Qed.

(** C4: a file without a match of any of the eight patterns is returned
    as it is with count 0, is not written and is not counted as modified;
    and for every file, the count is the sum of the matches of the eight
    patterns, and the file is written and counted as modified exactly when
    that count is positive. *)
Theorem scrub_file_modified_iff_count directory entryName content st :
  let entryPath := path_join directory entryName in
  let result := stripEslintCommentsFromContent content in
  let st' := scrub_file entryPath content st in
  (no_directive content ->
     result = {| modified := content; removedCount := 0 |}
     /\ writes st' = writes st
     /\ filesTouched (stats st') = filesTouched (stats st))
  /\ (isCodeFile entryPath = true ->
      walk_entry directory entryName (File content) st = st')
  /\ List.length ESLINT_DIRECTIVE_PATTERNS = 8
  /\ removedCount result
     = list_sum (match_counts content ESLINT_DIRECTIVE_PATTERNS)
  /\ (filesTouched (stats st') = S (filesTouched (stats st))
      <-> 0 < removedCount result)
  /\ (filesTouched (stats st') = filesTouched (stats st)
      <-> removedCount result = 0)
  /\ (writes st' = writes st ++ [(entryPath, modified result)]
      <-> 0 < removedCount result)
  /\ (writes st' = writes st <-> removedCount result = 0)
  /\ filesScanned (stats st') = S (filesScanned (stats st))
  /\ totalCommentsRemoved (stats st')
     = totalCommentsRemoved (stats st) + removedCount result.
Proof.
  cbv zeta. unfold scrub_file.
  assert (Hneq : forall (l : list (path * jsstring)) x, l ++ [x] <> l).
  { intros l x E. apply (f_equal (@List.length _)) in E.
    rewrite length_app in E. simpl in E. lia. }
  split; [|split; [|split; [|split]]].
  - intros H. rewrite (strip_no_directive content H). cbn. auto.
  - intros H. cbn [walk_entry]. now rewrite H.
  - reflexivity.
  - unfold stripEslintCommentsFromContent. now rewrite strip_steps_sum.
  - destruct (removedCount (stripEslintCommentsFromContent content)) as [|n] eqn:E;
      cbn [Nat.ltb Nat.leb stats writes filesTouched filesScanned totalCommentsRemoved].
    + repeat split; intros; try lia; try reflexivity.
      * exfalso. symmetry in H. exact (Hneq _ _ H).
    + repeat split; intros; try lia; try reflexivity.
      * exfalso. exact (Hneq _ _ H).
Qed.

Lemma scrub_file_modified_iff_count_witness :
  no_directive (js "const x = 1;")
  /\ writes (scrub_file [js "a.js"] (js "const x = 1;") walk_start) = [].
Proof.
  assert (H : no_directive (js "const x = 1;")).
  { intros re Hin. unfold ESLINT_DIRECTIVE_PATTERNS in Hin. cbn [In] in Hin.
    repeat (destruct Hin as [<-|Hin]; [vm_compute; reflexivity|]). contradiction. }
  split; [exact H|].
  exact (proj1 (proj2 (proj1
    (scrub_file_modified_iff_count [] (js "a.js") (js "const x = 1;") walk_start)
    H))).
Defined.

(** C6, as stated, fails: the line terminator of the directive's line is
    not matched, so an empty line stays where the directive was. *)
Lemma scrub_directive_line_keeps_terminator :
  let rest := js "const x = 1;" ++ [LF] in
  let result := stripEslintCommentsFromContent (directive_line ++ [LF] ++ rest) in
  result = {| modified := [LF] ++ rest; removedCount := 1 |}
  /\ modified result <> rest.
Proof. vm_compute. split; [reflexivity|discriminate]. Qed.

(** C6 (amended): in a text that holds no other directive comment (no
    [//] or [/*] followed, after white space if any, by [eslint]; other
    comments, paths and divisions may occur), the scrub deletes the
    directive from its [//] up to, but not including, the line terminator
    that follows; the text before the comment and the terminator stay (an
    empty line when the comment stood alone), and the count is 1, found by
    the fifth pattern. *)
Theorem scrub_directive_on_own_line pre post :
  directive_free (pre ++ post) = true -> at_line_end post ->
  stripEslintCommentsFromContent (pre ++ directive_line ++ post)
  = {| modified := pre ++ post; removedCount := 1 |}
  /\ match_counts (pre ++ directive_line ++ post) ESLINT_DIRECTIVE_PATTERNS
     = [0; 0; 0; 0; 1; 0; 0; 0].
Proof.
  intros Hfree Hend.
  assert (Hblock : forall re, In re (firstn 4 ESLINT_DIRECTIVE_PATTERNS) ->
            matches_from re (pre ++ directive_line ++ post) 0 = []).
  { intros re Hin.
    destruct (scan_before_line re [] pre post (first_four_patterns re Hin) Hfree)
      as [-> _].
    apply directive_line_no_block; [exact Hin|].
    exact (directive_free_app pre post Hfree). }
  assert (Hafter : forall re, In re ESLINT_DIRECTIVE_PATTERNS ->
            matches_from re (pre ++ post) 0 = []).
  { intros re Hin. now apply matches_directive_free. }
  destruct (directive_line_found pre post Hfree Hend) as [Hfound Hgone].
  assert (Hcounts :
            match_counts (pre ++ directive_line ++ post) ESLINT_DIRECTIVE_PATTERNS
            = [0; 0; 0; 0; 1; 0; 0; 0]).
  { unfold ESLINT_DIRECTIVE_PATTERNS.
    rewrite !match_counts_no_match
      by (apply Hblock; unfold ESLINT_DIRECTIVE_PATTERNS; cbn [firstn In]; tauto).
    rewrite match_counts_cons. unfold String_replace at 1. rewrite Hfound, Hgone.
    rewrite !match_counts_no_match
      by (apply Hafter; unfold ESLINT_DIRECTIVE_PATTERNS; cbn [In]; tauto).
    reflexivity. }
  split; [|exact Hcounts].
  unfold stripEslintCommentsFromContent, ESLINT_DIRECTIVE_PATTERNS.
  cbn [fold_left].
  rewrite !strip_step_no_match
    by (apply String_match_none, Hblock;
        unfold ESLINT_DIRECTIVE_PATTERNS; cbn [firstn In]; tauto).
  assert (Hstep : strip_step
            {| modified := pre ++ directive_line ++ post; removedCount := 0 |}
            (line_directive "eslint-disable")
          = {| modified := pre ++ post; removedCount := 1 |}).
  { unfold strip_step, String_match, String_replace. cbn [modified removedCount].
    now rewrite Hfound, Hgone. }
  rewrite Hstep.
  rewrite !strip_step_no_match
    by (apply String_match_none, Hafter;
        unfold ESLINT_DIRECTIVE_PATTERNS; cbn [In]; tauto).
  reflexivity.
Qed.

Lemma scrub_directive_on_own_line_witness :
  let pre := js "import a from './a' // helper" ++ [LF] in
  let post := [LF] ++ js "const half = a / 2 /* rounded later */" in
  stripEslintCommentsFromContent (pre ++ directive_line ++ post)
  = {| modified := pre ++ post; removedCount := 1 |}.
Proof.
  cbv zeta. apply scrub_directive_on_own_line.
  - vm_compute. reflexivity.
  - right. exists (js "const half = a / 2 /* rounded later */"). left. reflexivity.
Defined.

(** ** The walk: claim C5 *)

Lemma fsnode_nested_ind (P : fsnode -> Prop) :
  (forall content, P (File content)) ->
  (forall entries, Forall (fun e => P (snd e)) entries -> P (Dir entries)) ->
  (forall target, P (Link target)) ->
  P Other ->
  forall n, P n.
Proof.
  intros HF HD HL HO. fix IH 1. intros [content|entries|target|].
  - apply HF.
  - apply HD. induction entries as [|e entries IHes]; constructor.
    + apply IH.
    + exact IHes.
  - apply HL.
  - exact HO.
Qed.

Lemma walk_entry_dir directory entryName entries st :
  walk_entry directory entryName (Dir entries) st
  = if shouldIgnoreDir entryName then st
    else walk (path_join directory entryName) entries st.
Proof. reflexivity. Qed.

Lemma walk_cons directory e entries st :
  walk directory (e :: entries) st
  = walk directory entries (walk_entry directory (fst e) (snd e) st).
Proof. reflexivity. Qed.

(** Changing the first entry of a name into one that the walk treats alike
    changes nothing. *)
Lemma walk_update_first directory key f : forall entries,
  (forall x st, assoc key entries = Some x ->
     walk_entry directory key (f x) st = walk_entry directory key x st) ->
  forall st, walk directory (update_first key f entries) st = walk directory entries st.
Proof.
  induction entries as [|[k x] entries IH]; intros Hf st; [reflexivity|].
  cbn [update_first]. cbn [assoc] in Hf.
  destruct (jsstring_eqb k key) eqn:E.
  - apply jsstring_eqb_eq in E. subst k.
    rewrite !walk_cons. cbn [fst snd]. now rewrite Hf.
  - rewrite !walk_cons. cbn [fst snd]. apply IH. intros y st' Hy. now apply Hf.
Qed.

Lemma tree_lookup_cons d rest entries :
  tree_lookup (d :: rest) (Dir entries)
  = match assoc d entries with
    | Some child => tree_lookup rest child
    | None => None
    end.
Proof. reflexivity. Qed.

(** What lies in an ignored directory has no influence on the walk. *)
Lemma walk_graft_ignored dirName sub sub' :
  shouldIgnoreDir dirName = true ->
  forall rpath directory entries st,
    tree_lookup (rpath ++ [dirName]) (Dir entries) = Some (Dir sub) ->
    walk directory (graft (rpath ++ [dirName]) (Dir sub') entries) st
    = walk directory entries st.
Proof.
  intros Hign. induction rpath as [|d rest IH]; intros directory entries st Hl.
  - cbn [app graft]. apply walk_update_first. intros x st' Hx.
    cbn [app] in Hl. rewrite tree_lookup_cons, Hx in Hl. cbn in Hl.
    injection Hl as ->. rewrite !walk_entry_dir. now rewrite Hign.
  - cbn [app] in Hl |- *. rewrite tree_lookup_cons in Hl.
    destruct (assoc d entries) as [child|] eqn:Ed; [|discriminate].
    assert (Hg : graft (d :: rest ++ [dirName]) (Dir sub') entries
                 = update_first d
                     (fun child => match child with
                                   | Dir s => Dir (graft (rest ++ [dirName]) (Dir sub') s)
                                   | _ => child
                                   end) entries).
    { cbn [graft]. destruct (rest ++ [dirName]) eqn:Er; [|reflexivity].
      now destruct rest. }
    rewrite Hg. apply walk_update_first. intros x st' Hx.
    rewrite Ed in Hx. injection Hx as <-.
    destruct child as [content|es|target|]; try reflexivity.
    rewrite !walk_entry_dir. destruct (shouldIgnoreDir d); [reflexivity|].
    now apply IH.
Qed.

Lemma reached_from_step directory entryName p :
  shouldIgnoreDir entryName = false ->
  reached_from (path_join directory entryName) p -> reached_from directory p.
Proof.
  intros Hok (rel & -> & Hne & Hall).
  exists (rel ++ [entryName]). unfold path_join. rewrite <- app_assoc.
  split; [reflexivity|]. split; [now destruct rel|].
  destruct rel as [|x rel]; [contradiction|]. cbn [tl app] in *.
  apply Forall_app. split; [assumption|]. now constructor.
Qed.

Lemma walk_fold_writes directory entries :
  Forall (fun e => forall dir st w,
            In w (writes (walk_entry dir (fst e) (snd e) st)) ->
            In w (writes st) \/ reached_from dir (fst w)) entries ->
  forall st w, In w (writes (walk directory entries st)) ->
               In w (writes st) \/ reached_from directory (fst w).
Proof.
  induction 1 as [|e entries He _ IH]; intros st w Hw; [now left|].
  rewrite walk_cons in Hw. destruct (IH _ _ Hw) as [Hin|Hr]; [|now right].
  exact (He _ _ _ Hin).
Qed.

Lemma walk_entry_writes entry : forall directory entryName st w,
  In w (writes (walk_entry directory entryName entry st)) ->
  In w (writes st) \/ reached_from directory (fst w).
Proof.
  induction entry as [content|entries IH|target|] using fsnode_nested_ind;
    intros directory entryName st w Hw.
  - cbn [walk_entry] in Hw.
    destruct (negb (isCodeFile (path_join directory entryName))); [now left|].
    unfold scrub_file in Hw.
    destruct (0 <? removedCount (stripEslintCommentsFromContent content))%nat;
      cbn [writes] in Hw; [|now left].
    apply in_app_or in Hw as [Hw|[<-|[]]]; [now left|right].
    exists [entryName]. cbn. repeat split; [discriminate|constructor].
  - rewrite walk_entry_dir in Hw.
    destruct (shouldIgnoreDir entryName) eqn:Hign; [now left|].
    assert (Hall : Forall (fun e => forall dir st w,
              In w (writes (walk_entry dir (fst e) (snd e) st)) ->
              In w (writes st) \/ reached_from dir (fst w)) entries).
    { eapply Forall_impl; [|exact IH]. intros e He dir st' w'. apply He. }
    destruct (walk_fold_writes _ _ Hall _ _ Hw) as [Hin|Hr]; [now left|right].
    now apply (reached_from_step directory entryName).
  - now left.

  - now left.
Qed.

Lemma walk_writes directory entries st w :
  In w (writes (walk directory entries st)) ->
  In w (writes st) \/ reached_from directory (fst w).
Proof.
  apply walk_fold_writes. apply Forall_forall. intros e _ dir st' w'.
  apply walk_entry_writes.
Qed.

(** C5: the walk does not enter a directory whose name is in the ignore
    set of ten names.  Whatever such a directory holds, at any depth, can
    be exchanged for anything else without a change to the counters or to
    the files written; and every file the walk writes is reached from the
    walk's root through directory names that are not ignored. *)
Theorem walk_never_enters_ignored directory entries st :
  List.length IGNORED_DIRECTORIES = 10
  /\ (forall rpath dirName sub sub',
        shouldIgnoreDir dirName = true ->
        tree_lookup (rpath ++ [dirName]) (Dir entries) = Some (Dir sub) ->
        walk directory (graft (rpath ++ [dirName]) (Dir sub') entries) st
        = walk directory entries st)
  /\ (forall w, In w (writes (walk directory entries st)) ->
        In w (writes st) \/ reached_from directory (fst w)).
Proof.
  split; [reflexivity|]. split.
  - intros rpath dirName sub sub' Hign Hl. now apply (walk_graft_ignored dirName sub).
  - intros w. apply walk_writes.
Qed.

(** ** Legacy tool detection: claim C7 *)

Lemma rmatch_lit_cons ic c l s k :
  rmatch ic (lit_chars (c :: l)) s k
  = rmatch ic (Chr c) s (fun t => rmatch ic (lit_chars l) t k).
Proof. destruct l; reflexivity. Qed.

(** A run of pattern characters under the [i] flag is a prefix test. *)
Lemma rmatch_lit_prefix word : forall s k,
  rmatch true (lit_chars word) s k
  = if prefix_ci word s then k (skipn (List.length word) s) else None.
Proof.
  induction word as [|c word IH]; intros s k; [reflexivity|].
  rewrite rmatch_lit_cons. cbn [rmatch prefix_ci List.length skipn].
  destruct s as [|x s]; [reflexivity|].
  destruct (char_eqb true x c); [|reflexivity].
  cbn [andb]. apply IH.
Qed.

Lemma exec_at_legacy s :
  exec_at LEGACY_TOOL_PATTERN s = None <-> legacy_prefix s = false.
Proof.
  unfold exec_at, LEGACY_TOOL_PATTERN, legacy_prefix, lit.
  cbn [pattern ignoreCase rmatch]. rewrite !rmatch_lit_prefix.
  destruct (prefix_ci (js "eslint") s); [cbn; split; discriminate|].
  destruct (prefix_ci (js "prettier") s); cbn; split; try discriminate; reflexivity.
Qed.

(** [test] succeeds exactly when some suffix starts with one of the words. *)
Lemma test_legacy_suffix s :
  test LEGACY_TOOL_PATTERN s = true
  <-> exists pre rest, s = pre ++ rest /\ legacy_prefix rest = true.
Proof.
  induction s as [|c s IH].
  - cbn [test]. destruct (exec_at LEGACY_TOOL_PATTERN []) eqn:E.
    + split; [|reflexivity]. intros _. exists [], []. split; [reflexivity|].
      destruct (legacy_prefix []) eqn:L; [reflexivity|].
      apply exec_at_legacy in L. congruence.
    + split; [discriminate|]. intros (pre & rest & Hs & L).
      symmetry in Hs. apply app_eq_nil in Hs as [-> ->].
      apply exec_at_legacy in E. congruence.
  - cbn [test]. destruct (exec_at LEGACY_TOOL_PATTERN (c :: s)) eqn:E.
    + split; [|reflexivity]. intros _. exists [], (c :: s). split; [reflexivity|].
      destruct (legacy_prefix (c :: s)) eqn:L; [reflexivity|].
      apply exec_at_legacy in L. congruence.
    + rewrite IH. apply exec_at_legacy in E. split.
      * intros (pre & rest & -> & L). now exists (c :: pre), rest.
      * intros (pre & rest & Hs & L). destruct pre as [|x pre].
        -- cbn [app] in Hs. subst rest. congruence.
        -- injection Hs as -> ->. now exists pre, rest.
Qed.

(** Against a lower-case letter, the [i] comparison is equality of the
    lower-cased character. *)
Lemma char_eqb_lower x c :
  is_lower c = true -> (char_eqb true x c = true <-> to_lower_ascii x = c).
Proof.
  unfold is_lower, char_eqb, canonicalize, to_lower_ascii. intros Hc.
  apply andb_true_iff in Hc as [H1 H2].
  apply N.leb_le in H1. apply N.leb_le in H2.
  cbn [andb]. rewrite (proj2 (N.leb_le 97 c) H1), (proj2 (N.leb_le c 122) H2).
  cbn [andb].
  destruct (N.leb 97 x) eqn:A1; destruct (N.leb x 122) eqn:A2;
  destruct (N.leb 65 x) eqn:B1; destruct (N.leb x 90) eqn:B2; cbn [andb];
  rewrite N.eqb_eq;
  repeat match goal with
         | H : N.leb _ _ = true |- _ => apply N.leb_le in H
         | H : N.leb _ _ = false |- _ => apply N.leb_gt in H
         end; lia.
Qed.

Lemma prefix_ci_spec word : Forall (fun c => is_lower c = true) word ->
  forall s, prefix_ci word s = true
            <-> exists mid post, s = mid ++ post /\ map to_lower_ascii mid = word.
Proof.
  induction 1 as [|c word Hc _ IH]; intros s.
  - cbn [prefix_ci]. split; [|reflexivity]. intros _. now exists [], s.
  - destruct s as [|x s]; cbn [prefix_ci].
    + split; [discriminate|]. intros (mid & post & Hs & Hm).
      symmetry in Hs. apply app_eq_nil in Hs as [-> _]. discriminate.
    + rewrite andb_true_iff, (char_eqb_lower x c Hc), IH. split.
      * intros [Hx (mid & post & -> & Hm)]. exists (x :: mid), post.
        split; [reflexivity|]. cbn [map]. congruence.
      * intros (mid & post & Hs & Hm). destruct mid as [|y mid]; [discriminate|].
        cbn [map app] in *. injection Hs as -> ->. injection Hm as Hy Hm.
        split; [assumption|]. now exists mid, post.
Qed.

Lemma legacy_words_lower :
  Forall (fun c => is_lower c = true) (js "eslint")
  /\ Forall (fun c => is_lower c = true) (js "prettier").
Proof. split; repeat constructor. Qed.

(** The pattern [/(eslint|prettier)/i] decides [legacy_name]. *)
Lemma test_legacy_spec name :
  test LEGACY_TOOL_PATTERN name = true <-> legacy_name name.
Proof.
  rewrite test_legacy_suffix. unfold legacy_prefix, legacy_name, contains_ignoring_case.
  destruct legacy_words_lower as [He Hp]. split.
  - intros (pre & rest & -> & L). apply orb_true_iff in L as [L|L].
    + left. apply (prefix_ci_spec _ He) in L as (mid & post & -> & Hm).
      now exists pre, mid, post.
    + right. apply (prefix_ci_spec _ Hp) in L as (mid & post & -> & Hm).
      now exists pre, mid, post.
  - intros [(pre & mid & post & -> & Hm)|(pre & mid & post & -> & Hm)];
      exists pre, (mid ++ post); (split; [reflexivity|]); apply orb_true_iff.
    + left. apply (prefix_ci_spec _ He). now exists mid, post.
    + right. apply (prefix_ci_spec _ Hp). now exists mid, post.
Qed.

(** No index key, being made of digits, matches the pattern. *)
Lemma uint_digits_are_digits d : Forall (fun c => is_digit c = true) (uint_digits d).
Proof. induction d; cbn [uint_digits]; constructor; auto. Qed.

Lemma digit_not_legacy_prefix c s : is_digit c = true -> legacy_prefix (c :: s) = false.
Proof.
  unfold is_digit, legacy_prefix. intros H.
  apply andb_true_iff in H as [H1 H2]. apply N.leb_le in H1. apply N.leb_le in H2.
  assert (E : forall p, is_lower p = true -> char_eqb true c p = false).
  { intros p Hp. destruct (char_eqb true c p) eqn:E; [|reflexivity].
    apply (char_eqb_lower c p Hp) in E. unfold to_lower_ascii in E.
    unfold is_lower in Hp. apply andb_true_iff in Hp as [P1 P2].
    apply N.leb_le in P1. apply N.leb_le in P2.
    destruct (N.leb 65 c && N.leb c 90); lia. }
  change (js "eslint") with (101%N :: js "slint").
  change (js "prettier") with (112%N :: js "rettier").
  cbn [prefix_ci]. now rewrite !E by reflexivity.
Qed.

Lemma digits_not_legacy s :
  Forall (fun c => is_digit c = true) s -> test LEGACY_TOOL_PATTERN s = false.
Proof.
  intros H. destruct (test LEGACY_TOOL_PATTERN s) eqn:E; [|reflexivity].
  apply test_legacy_suffix in E as (pre & rest & -> & L).
  apply Forall_app in H as [_ H].
  destruct H as [|c rest Hc _]; [discriminate L|].
  rewrite (digit_not_legacy_prefix c rest Hc) in L. discriminate.
Qed.

Lemma index_keys_not_legacy n len :
  filter (test LEGACY_TOOL_PATTERN) (map index_key (List.seq n len)) = [].
Proof.
  revert n. induction len as [|len IH]; intros n; [reflexivity|].
  cbn [List.seq map filter]. unfold index_key at 1.
  rewrite (digits_not_legacy _ (uint_digits_are_digits _)). apply IH.
Qed.

Lemma filter_twice {A} (p q : A -> bool) l :
  filter p (filter q l) = filter (fun y => q y && p y) l.
Proof.
  induction l as [|x l IH]; [reflexivity|]. cbn [filter].
  destruct (q x); cbn [filter andb]; [|exact IH]. now rewrite IH.
Qed.

Lemma filter_first_occurrences p l :
  filter p (first_occurrences l) = first_occurrences (filter p l).
Proof.
  induction l as [|x l IH]; [reflexivity|]. cbn [first_occurrences filter].
  destruct (p x) eqn:Px.
  - cbn [first_occurrences]. f_equal. rewrite <- IH, !filter_twice.
    apply filter_ext. intros y. apply andb_comm.
  - rewrite <- IH, filter_twice. apply filter_ext. intros y.
    destruct (jsstring_eqb y x) eqn:E; [|reflexivity].
    apply jsstring_eqb_eq in E. subst y. now rewrite Px.
Qed.

Lemma add_all_first_occurrences l : forall set,
  add_all set l
  = set ++ first_occurrences (filter (fun x => negb (Set_has set x)) l).
Proof.
  induction l as [|x l IH]; intros set; [symmetry; apply app_nil_r|].
  unfold add_all in *. cbn [fold_left filter]. unfold Set_add at 2, Set_has at 1.
  destruct (existsb (jsstring_eqb x) set) eqn:E; cbn [negb].
  - apply IH.
  - rewrite IH, <- app_assoc. cbn [app first_occurrences]. do 2 f_equal.
    rewrite filter_first_occurrences, filter_twice. f_equal.
    apply filter_ext. intros y. unfold Set_has.
    rewrite existsb_app. cbn [existsb]. rewrite orb_false_r, negb_orb.
    reflexivity.
Qed.

Lemma add_all_app set l1 l2 : add_all (add_all set l1) l2 = add_all set (l1 ++ l2).
Proof. unfold add_all. now rewrite fold_left_app. Qed.

Lemma findLegacyTools_names_add_all names : forall legacy,
  findLegacyTools_names legacy names
  = add_all legacy (filter (test LEGACY_TOOL_PATTERN) names).
Proof.
  induction names as [|x names IH]; intros legacy; [reflexivity|].
  unfold findLegacyTools_names, add_all in *. cbn [fold_left filter].
  destruct (test LEGACY_TOOL_PATTERN x); cbn [fold_left]; apply IH.
Qed.

(** A dependency group that is not a mapping contributes no name. *)
Lemma findLegacyTools_field_add_all pkg legacy field :
  findLegacyTools_field pkg legacy field
  = add_all legacy (filter (test LEGACY_TOOL_PATTERN) (group_names pkg field)).
Proof.
  unfold findLegacyTools_field, group_names.
  destruct (member pkg field) as [deps|]; [|reflexivity].
  destruct deps as [|b|x|str|items|ms]; cbn [truthy negb Object_keys].
  - reflexivity.
  - destruct b; reflexivity.
  - destruct (is_zero x || is_nan x); reflexivity.
  - destruct str; [reflexivity|]. cbn [negb].
    rewrite findLegacyTools_names_add_all. now rewrite index_keys_not_legacy.
  - rewrite findLegacyTools_names_add_all. now rewrite index_keys_not_legacy.
  - apply findLegacyTools_names_add_all.
Qed.

Lemma filter_flat_map {A B} (p : B -> bool) (g : A -> list B) l :
  filter p (flat_map g l) = flat_map (fun x => filter p (g x)) l.
Proof.
  induction l as [|x l IH]; [reflexivity|]. cbn [flat_map].
  now rewrite filter_app, IH.
Qed.

Lemma findLegacyTools_fold pkg fields : forall legacy,
  fold_left (findLegacyTools_field pkg) fields legacy
  = add_all legacy
      (filter (test LEGACY_TOOL_PATTERN) (flat_map (group_names pkg) fields)).
Proof.
  induction fields as [|f fields IH]; intros legacy; [reflexivity|].
  cbn [fold_left flat_map]. rewrite IH, findLegacyTools_field_add_all.
  now rewrite add_all_app, filter_app.
Qed.

Lemma findLegacyTools_first_occurrences pkg :
  findLegacyTools pkg
  = first_occurrences (filter (test LEGACY_TOOL_PATTERN) (declared_names pkg)).
Proof.
  unfold findLegacyTools, declared_names.
  rewrite findLegacyTools_fold, add_all_first_occurrences. cbn [app].
  f_equal. rewrite filter_twice. apply filter_ext. intros y.
  cbn. apply andb_true_r.
Qed.

Lemma in_first_occurrences x l : In x (first_occurrences l) <-> In x l.
Proof.
  induction l as [|y l IH]; [reflexivity|]. cbn [first_occurrences In].
  rewrite filter_In, IH. split.
  - intros [H|[H _]]; auto.
  - intros [H|H]; [now left|].
    destruct (jsstring_eqb x y) eqn:E.
    + apply jsstring_eqb_eq in E. now left.
    + right. now split.
Qed.

Lemma NoDup_first_occurrences l : NoDup (first_occurrences l).
Proof.
  induction l as [|y l IH]; cbn [first_occurrences]; constructor.
  - rewrite filter_In. intros [_ H]. now rewrite jsstring_eqb_refl in H.
  - now apply NoDup_filter.
Qed.

(** C7: for every manifest, the legacy tools found are exactly the package
    names of the four dependency groups that contain [eslint] or
    [prettier], letter case ignored, each listed once, at the place of its
    first occurrence; in scenario D both names are returned. *)
Theorem findLegacyTools_exact members :
  let pkg := JObject members in
  findLegacyTools pkg
  = first_occurrences (filter (test LEGACY_TOOL_PATTERN) (declared_names pkg))
  /\ NoDup (findLegacyTools pkg)
  /\ (forall name,
        In name (findLegacyTools pkg)
        <-> In name (declared_names pkg) /\ legacy_name name)
  /\ (forall name, test LEGACY_TOOL_PATTERN name = true <-> legacy_name name)
  /\ findLegacyTools scenario_D = [js "eslint"; js "eslint-config-foo"].
Proof.
  cbv zeta. split; [apply findLegacyTools_first_occurrences|].
  rewrite findLegacyTools_first_occurrences.
  split; [apply NoDup_first_occurrences|]. split; [|split].
  - intros name. rewrite in_first_occurrences, filter_In.
    now rewrite test_legacy_spec.
  - apply test_legacy_spec.
  - vm_compute. reflexivity.
Qed.

(** ** Package-manager detection: claims C2, C3 and C10 *)

Lemma split_head_app sep a b :
  ~ In sep a -> split_head sep (a ++ sep :: b) = a.
Proof.
  induction a as [|c a IH]; intros H; cbn [app split_head].
  - now rewrite N.eqb_refl.
  - destruct (N.eqb c sep) eqn:E.
    + apply N.eqb_eq in E. subst. elim H. now left.
    + rewrite IH; [reflexivity|]. intros Ha. apply H. now right.
Qed.

Lemma member_not_null parsed key v :
  member parsed key = Some v -> exists ms, parsed = JObject ms.
Proof. destruct parsed; try discriminate. intros _. now eexists. Qed.

Section DetectionProperties.

Variable PROJECT_ROOT : path.
Variable existsSync : path -> bool.
Variable readFileSync : path -> result jsstring.
Variable JSON_parse : jsstring -> result json.

Local Abbreviation detect :=
  (detectPackageManager PROJECT_ROOT existsSync readFileSync JSON_parse).
Local Abbreviation extract :=
  (extractFromPackageManagerField readFileSync JSON_parse).
Local Abbreviation local_manifest := (PATHS_packageJson PROJECT_ROOT).

Lemma extract_declared p raw parsed declared :
  readFileSync p = Ok raw ->
  JSON_parse raw = Ok parsed ->
  member parsed (js "packageManager") = Some (JString declared) ->
  extract (Some p) = PACKAGE_MANAGERS_get (split_head AT_SIGN declared).
Proof.
  intros Hr Hp Hm. unfold extractFromPackageManagerField. rewrite Hr, Hp.
  destruct (member_not_null _ _ _ Hm) as [ms ->]. now rewrite Hm.
Qed.

Lemma extract_nothing p :
  declares_nothing readFileSync JSON_parse p -> extract (Some p) = None.
Proof.
  intros H. unfold extractFromPackageManagerField.
  destruct (readFileSync p) as [raw|] eqn:Hr; [|reflexivity].
  destruct (JSON_parse raw) as [parsed|] eqn:Hp; [|reflexivity].
  destruct parsed as [|b|x|str|items|ms]; try reflexivity.
  cbn [member]. destruct (assoc (js "packageManager") ms) as [v|] eqn:Hm;
    [|reflexivity].
  destruct v; try reflexivity.
  exact (H raw (JObject ms) s Hr Hp Hm).
Qed.

(** C2: a known manager declared by the local manifest is the one
    detected, whatever files exist. *)
Theorem declared_manager_is_detected managerName pm version raw parsed :
  In (managerName, pm) PACKAGE_MANAGERS ->
  readFileSync local_manifest = Ok raw ->
  JSON_parse raw = Ok parsed ->
  member parsed (js "packageManager")
    = Some (JString (managerName ++ AT_SIGN :: version)) ->
  detect = Profile pm.
Proof.
  intros Hin Hr Hp Hm. unfold detectPackageManager.
  rewrite (extract_declared _ _ _ _ Hr Hp Hm).
  unfold PACKAGE_MANAGERS in Hin. cbn [In] in Hin.
  destruct Hin as [E|[E|[E|[E|[]]]]]; injection E as <- <-;
    (rewrite split_head_app by (vm_compute; intuition discriminate));
    reflexivity.
Qed.

Lemma findUpwards_from_exists filenames : forall current,
  findUpwards_from existsSync filenames current = None
  <-> forall filename, In filename filenames ->
        existsb (fun d => existsSync (path_join d filename)) (ancestors current)
        = false.
Proof.
  assert (Hfind : forall d,
            find (fun n => existsSync (path_join d n)) filenames = None
            <-> forall n, In n filenames -> existsSync (path_join d n) = false).
  { intros d. split.
    - intros H n Hn. exact (find_none _ _ H n Hn).
    - intros H. destruct (find _ filenames) as [n|] eqn:E; [|reflexivity].
      apply find_some in E as [Hn He]. rewrite (H n Hn) in He. discriminate. }
  induction current as [|c parent IH]; cbn [findUpwards_from ancestors existsb].
  - destruct (find _ filenames) as [n|] eqn:E.
    + split; [discriminate|]. intros H. apply find_some in E as [Hn He].
      specialize (H n Hn). rewrite He in H. discriminate.
    + split; [|reflexivity]. intros _ n Hn.
      now rewrite (proj1 (Hfind []) E n Hn).
  - destruct (find _ filenames) as [n|] eqn:E.
    + split; [discriminate|]. intros H. apply find_some in E as [Hn He].
      specialize (H n Hn). rewrite He in H. discriminate.
    + rewrite IH. split; intros H n Hn.
      * now rewrite (proj1 (Hfind (c :: parent)) E n Hn), (H n Hn).
      * specialize (H n Hn). apply orb_false_iff in H as [_ H]. exact H.
Qed.

Lemma findUpwards_single filename :
  match findUpwards PROJECT_ROOT existsSync [filename] with
  | Some _ => true
  | None => false
  end
  = exists_upwards PROJECT_ROOT existsSync filename.
Proof.
  unfold findUpwards, exists_upwards.
  destruct (findUpwards_from existsSync [filename] PROJECT_ROOT) eqn:E.
  - destruct (existsb _ (ancestors PROJECT_ROOT)) eqn:X; [reflexivity|].
    assert (N : findUpwards_from existsSync [filename] PROJECT_ROOT = None).
    { apply findUpwards_from_exists. intros n [<-|[]]. exact X. }
    congruence.
  - symmetry. apply (proj1 (findUpwards_from_exists _ _) E). now left.
Qed.

(** C3 (amended): when neither the manifest of the working directory nor
    the nearest manifest above it (the only two the function reads)
    declares a manager, the lockfiles decide by priority alone: [pnpm] if a
    [pnpm-lock.yaml] exists in the working directory or anywhere above it,
    else [yarn] if a [yarn.lock] does, else [bun] if a [bun.lockb] does,
    else [npm]. *)
Theorem lockfile_priority_decides :
  declares_nothing readFileSync JSON_parse local_manifest ->
  (forall up,
     findUpwards PROJECT_ROOT existsSync [js "package.json"] = Some up ->
     declares_nothing readFileSync JSON_parse (file up)) ->
  detect =
    Profile
      (if exists_upwards PROJECT_ROOT existsSync (js "pnpm-lock.yaml") then pnpm
       else if exists_upwards PROJECT_ROOT existsSync (js "yarn.lock") then yarn
       else if exists_upwards PROJECT_ROOT existsSync (js "bun.lockb") then bun
       else npm).
Proof.
  intros Hlocal Hnearest. unfold detectPackageManager.
  rewrite (extract_nothing _ Hlocal).
  assert (Hup : match findUpwards PROJECT_ROOT existsSync [js "package.json"] with
                | Some upstreamPkg =>
                    if negb (path_eqb (file upstreamPkg) local_manifest)
                    then extract (Some (file upstreamPkg))
                    else None
                | None => None
                end = None).
  { destruct (findUpwards _ _ _) as [up|] eqn:Eup; [|reflexivity].
    destruct (negb _); [|reflexivity]. apply extract_nothing, Hnearest.
    reflexivity. }
  rewrite Hup.
  rewrite <- !findUpwards_single.
  unfold PACKAGE_MANAGER_PRIORITY. cbn [detectFromLockfiles].
  change (assoc (js "pnpm") PACKAGE_MANAGERS) with (Some pnpm).
  change (assoc (js "yarn") PACKAGE_MANAGERS) with (Some yarn).
  change (assoc (js "bun") PACKAGE_MANAGERS) with (Some bun).
  cbn [lockFile pnpm yarn bun].
  destruct (findUpwards _ _ [js "pnpm-lock.yaml"]); [reflexivity|].
  destruct (findUpwards _ _ [js "yarn.lock"]); [reflexivity|].
  destruct (findUpwards _ _ [js "bun.lockb"]); reflexivity.
Qed.

(** C10, where the code departs from it: a declared name that is a member
    of [Object.prototype] is not ignored; the lookup in the manager table
    finds the inherited member and detection returns it instead of a
    profile. *)
Theorem inherited_member_is_returned version raw parsed :
  readFileSync local_manifest = Ok raw ->
  JSON_parse raw = Ok parsed ->
  member parsed (js "packageManager")
    = Some (JString (js "constructor" ++ AT_SIGN :: version)) ->
  detect = Inherited (js "constructor")
  /\ (forall pm, detect <> Profile pm).
Proof.
  intros Hr Hp Hm.
  assert (E : detect = Inherited (js "constructor")).
  { unfold detectPackageManager. rewrite (extract_declared _ _ _ _ Hr Hp Hm).
    rewrite split_head_app by (vm_compute; intuition discriminate). reflexivity. }
  split; [exact E|]. intros pm. rewrite E. discriminate.
Qed.

End DetectionProperties.

Lemma workspace_manifest_declares_nothing :
  declares_nothing workspace_readFileSync workspace_parse workspace_manifest.
Proof.
  intros raw parsed declared Hr Hp Hm.
  vm_compute in Hr. injection Hr as <-.
  vm_compute in Hp. injection Hp as <-. discriminate.
Qed.

Lemma workspace_unreadable p :
  workspace_readFileSync p = no_file p ->
  declares_nothing workspace_readFileSync workspace_parse p.
Proof. intros E raw parsed declared Hr. rewrite E in Hr. discriminate. Qed.

(** C3, as stated, fails: no manifest of the working directory or above
    declares a manager and the nearest lockfile is [yarn.lock], yet [pnpm]
    is detected, because the search for [pnpm-lock.yaml] runs up the whole
    chain of directories before [yarn.lock] is looked for. *)
Lemma nearest_lockfile_is_not_detected :
  (forall d, In d (ancestors workspace_root) ->
     declares_nothing workspace_readFileSync workspace_parse
       (path_join d (js "package.json")))
  /\ nearest_lockfile_manager workspace_root workspace_existsSync = yarn
  /\ detectPackageManager workspace_root workspace_existsSync
       workspace_readFileSync workspace_parse
     = Profile pnpm
  /\ detectPackageManager workspace_root workspace_existsSync
       workspace_readFileSync workspace_parse
     <> Profile (nearest_lockfile_manager workspace_root workspace_existsSync).
Proof.
  split.
  { intros d Hd. cbn [ancestors workspace_root In] in Hd.
    destruct Hd as [<-|[<-|[<-|[]]]].
    - exact workspace_manifest_declares_nothing.
    - apply workspace_unreadable. vm_compute. reflexivity.
    - apply workspace_unreadable. vm_compute. reflexivity. }
  split; [vm_compute; reflexivity|].
  split; [vm_compute; reflexivity|].
  intros H.
  assert (E : pm_id (detectPackageManager workspace_root workspace_existsSync
                       workspace_readFileSync workspace_parse)
              = pm_id (Profile (nearest_lockfile_manager workspace_root
                                  workspace_existsSync))) by now rewrite H.
  vm_compute in E. discriminate.
Qed.

Lemma lockfile_priority_decides_witness :
  workspace_readFileSync dependency_manifest
  = Ok (declaring_text (js "bun@1.0.0"))
  /\ detectPackageManager workspace_root workspace_existsSync
       workspace_readFileSync workspace_parse
     = Profile pnpm.
Proof.
  split; [vm_compute; reflexivity|].
  rewrite (lockfile_priority_decides workspace_root workspace_existsSync
             workspace_readFileSync workspace_parse).
  - vm_compute. reflexivity.
  - exact workspace_manifest_declares_nothing.
  - intros up Hup. vm_compute in Hup. injection Hup as <-.
    exact workspace_manifest_declares_nothing.
Defined.

Lemma declared_manager_is_detected_witness :
  detectPackageManager scenario_root scenario_existsSync
    (scenario_readFileSync (js "pnpm@9.0.0")) (scenario_parse (js "pnpm@9.0.0"))
  = Profile pnpm
  /\ scenario_existsSync [js "yarn.lock"; js "app"] = true.
Proof.
  split; [|reflexivity].
  apply (declared_manager_is_detected scenario_root scenario_existsSync
           (scenario_readFileSync (js "pnpm@9.0.0"))
           (scenario_parse (js "pnpm@9.0.0"))
           (js "pnpm") pnpm (js "9.0.0")
           (declaring_text (js "pnpm@9.0.0"))
           (declaring_manifest (js "pnpm@9.0.0"))).
  - left. reflexivity.
  - vm_compute. reflexivity.
  - vm_compute. reflexivity.
  - vm_compute. reflexivity.
Defined.

Lemma inherited_member_is_returned_witness :
  detectPackageManager scenario_root scenario_existsSync
    (scenario_readFileSync (js "constructor@1.0.0"))
    (scenario_parse (js "constructor@1.0.0"))
  = Inherited (js "constructor").
Proof.
  apply (inherited_member_is_returned scenario_root scenario_existsSync
           (scenario_readFileSync (js "constructor@1.0.0"))
           (scenario_parse (js "constructor@1.0.0"))
           (js "1.0.0")
           (declaring_text (js "constructor@1.0.0"))
           (declaring_manifest (js "constructor@1.0.0"))).
  - vm_compute. reflexivity.
  - vm_compute. reflexivity.
  - vm_compute. reflexivity.
Defined.

(** ** Manifest handling: claims C8 and C9 *)

Lemma assoc_set_key_other {A} key k (v : A) ms :
  k <> key -> assoc k (set_key key v ms) = assoc k ms.
Proof.
  intros Hk. induction ms as [|[k' x] ms IH]; cbn [set_key assoc].
  - destruct (jsstring_eqb key k) eqn:E; [|reflexivity].
    apply jsstring_eqb_eq in E. congruence.
  - destruct (jsstring_eqb k' key) eqn:E; cbn [assoc].
    + apply jsstring_eqb_eq in E. subst k'.
      destruct (jsstring_eqb key k) eqn:E'; [|reflexivity].
      apply jsstring_eqb_eq in E'. congruence.
    + now rewrite IH.
Qed.

Lemma assoc_set_key_same {A} key (v : A) ms :
  assoc key (set_key key v ms) = Some v.
Proof.
  induction ms as [|[k' x] ms IH]; cbn [set_key assoc].
  - now rewrite jsstring_eqb_refl.
  - destruct (jsstring_eqb k' key) eqn:E; cbn [assoc]; now rewrite E.
Qed.

Lemma assoc_remove_key_other {A} key k (ms : list (jsstring * A)) :
  k <> key -> assoc k (remove_key key ms) = assoc k ms.
Proof.
  intros Hk. unfold remove_key.
  induction ms as [|[k' x] ms IH]; [reflexivity|]. cbn [filter fst assoc].
  destruct (jsstring_eqb k' key) eqn:E; cbn [negb assoc].
  - apply jsstring_eqb_eq in E. subst k'.
    destruct (jsstring_eqb key k) eqn:E'; [|exact IH].
    apply jsstring_eqb_eq in E'. congruence.
  - now rewrite IH.
Qed.

Lemma remove_key_set_key {A} key (v : A) ms :
  remove_key key (set_key key v ms) = remove_key key ms.
Proof.
  unfold remove_key.
  induction ms as [|[k' x] ms IH]; cbn [set_key filter fst].
  - now rewrite jsstring_eqb_refl.
  - destruct (jsstring_eqb k' key) eqn:E; cbn [filter fst]; rewrite E; cbn [negb].
    + reflexivity.
    + now rewrite IH.
Qed.

Lemma cleanEslintPrettierConfig_frame members :
  exists kept changed,
    cleanEslintPrettierConfig (JObject members) = (JObject kept, changed)
    /\ (kept = members
        \/ kept = remove_key (js "eslintConfig") members
        \/ kept = remove_key (js "prettier") members
        \/ kept = remove_key (js "prettier") (remove_key (js "eslintConfig") members))
    /\ (forall key, key <> js "eslintConfig" -> key <> js "prettier" ->
          assoc key kept = assoc key members)
    /\ (changed = false -> kept = members).
Proof.
  unfold cleanEslintPrettierConfig.
  destruct (truthy (assoc (js "eslintConfig") members)).
  - destruct (truthy (assoc (js "prettier") (remove_key (js "eslintConfig") members))).
    + eexists _, _. split; [reflexivity|]. split; [tauto|]. split; [|discriminate].
      intros key H1 H2. now rewrite !assoc_remove_key_other.
    + eexists _, _. split; [reflexivity|]. split; [tauto|]. split; [|discriminate].
      intros key H1 H2. now rewrite !assoc_remove_key_other.
  - destruct (truthy (assoc (js "prettier") members)).
    + eexists _, _. split; [reflexivity|]. split; [tauto|]. split; [|discriminate].
      intros key H1 H2. now rewrite !assoc_remove_key_other.
    + eexists _, _. split; [reflexivity|]. split; [tauto|]. split; reflexivity.
Qed.

Lemma setScripts_frame isTs scripts :
  exists scripts',
    setScripts isTs (JObject scripts) = JObject scripts'
    /\ forall key, key <> js "lint" -> key <> js "lint:fix" ->
         (isTs = true -> key <> js "type-check") ->
         assoc key scripts' = assoc key scripts.
Proof.
  unfold setScripts. destruct isTs; cbn [assign_member];
    eexists; (split; [reflexivity|]); intros key H1 H2 H3.
  - rewrite !assoc_set_key_other; auto.
  - rewrite !assoc_set_key_other; auto.
Qed.

Lemma withScripts_frame isTs members :
  (forall key, key <> js "scripts" ->
     assoc key (withScripts isTs members) = assoc key members)
  /\ remove_key (js "scripts") (withScripts isTs members)
     = remove_key (js "scripts") members
  /\ (forall scripts, assoc (js "scripts") members = Some (JObject scripts) ->
        exists scripts',
          assoc (js "scripts") (withScripts isTs members) = Some (JObject scripts')
          /\ forall key, key <> js "lint" -> key <> js "lint:fix" ->
               (isTs = true -> key <> js "type-check") ->
               assoc key scripts' = assoc key scripts).
Proof.
  unfold withScripts. split; [|split].
  - intros key Hk. now apply assoc_set_key_other.
  - apply remove_key_set_key.
  - intros scripts Hs. rewrite Hs. cbn [truthy].
    destruct (setScripts_frame isTs scripts) as (scripts' & -> & Hframe).
    exists scripts'. split; [apply assoc_set_key_same|exact Hframe].
Qed.

(** What can be read exists. *)
Lemma world_read_exists w p raw :
  world_readFileSync w p = Ok raw -> world_existsSync w p = true.
Proof.
  unfold world_readFileSync, world_existsSync.
  destruct (realpath w p) as [q|]; [|discriminate].
  destruct (lookup w q); [reflexivity|discriminate].
Qed.




Section HostProperties.

Variable PROJECT_ROOT : path.
Variable JSON_parse : jsstring -> result json.
Variable JSON_stringify : json -> jsstring.
Variable execSync : jsstring -> world -> exec_outcome * world.
Variable inquirer_prompt : bool -> M answers.
Variable chalk : string -> jsstring -> jsstring.
Variable inspect : exn -> jsstring.
Variable fs_fault : fs_call -> world -> option exn.

Local Abbreviation manifest_path := (PATHS_packageJson PROJECT_ROOT).
Local Abbreviation run_main :=
  (main PROJECT_ROOT JSON_parse JSON_stringify execSync inquirer_prompt chalk
     inspect fs_fault).

(** C8: the two mutations of the manifest leave every field alone that
    they do not target.  The cleanup returns the members without
    [eslintConfig], without [prettier], without both or as they were; the
    script update touches the member [scripts] only, and in a [scripts]
    object nothing but [lint], [lint:fix] and, for a TypeScript project,
    [type-check]; and what is serialized into the manifest file is that
    object. *)
Theorem manifest_mutations_keep_other_fields w members :
  (exists kept changed,
     cleanEslintPrettierConfig (JObject members) = (JObject kept, changed)
     /\ (kept = members
         \/ kept = remove_key (js "eslintConfig") members
         \/ kept = remove_key (js "prettier") members
         \/ kept = remove_key (js "prettier")
                     (remove_key (js "eslintConfig") members))
     /\ (forall key, key <> js "eslintConfig" -> key <> js "prettier" ->
           assoc key kept = assoc key members)
     /\ (changed = false -> kept = members))
  /\ (forall isTs,
        (forall key, key <> js "scripts" ->
           assoc key (withScripts isTs members) = assoc key members)
        /\ remove_key (js "scripts") (withScripts isTs members)
           = remove_key (js "scripts") members
        /\ (forall scripts,
              assoc (js "scripts") members = Some (JObject scripts) ->
              exists scripts',
                assoc (js "scripts") (withScripts isTs members)
                = Some (JObject scripts')
                /\ forall key, key <> js "lint" -> key <> js "lint:fix" ->
                     (isTs = true -> key <> js "type-check") ->
                     assoc key scripts' = assoc key scripts))
  /\ (readManifest PROJECT_ROOT JSON_parse w = (Ok (JObject members), w) ->
      updatePackageJsonScripts PROJECT_ROOT JSON_parse JSON_stringify chalk w
      = (fs_writeFileSync manifest_path
           (JSON_stringify
              (JObject
                 (withScripts
                    (isTypescriptProject PROJECT_ROOT (world_existsSync w)
                       (JObject members))
                    members))
            ++ [LF]) ;;;
         logger_success chalk (js "Added scripts to package.json: lint, lint:fix"))
          w).
Proof.
  split; [apply cleanEslintPrettierConfig_frame|]. split.
  - intros isTs. apply withScripts_frame.
  - intros H. unfold updatePackageJsonScripts, bind. rewrite H. reflexivity.
Qed.

(** C9: without a manifest in the working directory, and with a manifest
    whose text [JSON.parse] rejects, reading the manifest throws a
    [CliError] (in the second case with the parser's message inside its
    own), and [main] prints that message alone on the error stream and
    exits with code 1. *)
Theorem manifest_failure_is_user_reported w :
  (world_existsSync w manifest_path = false ->
   let m := js "No package.json found. Please run this command in your project root." in
   readManifest PROJECT_ROOT JSON_parse w = (Throw (CliError m), w)
   /\ run_main w
      = (1, {| root := root w;
               console := console w ++ [(Stderr, chalk "red" m)] |}))
  /\ (forall raw error,
        world_readFileSync w manifest_path = Ok raw ->
        JSON_parse raw = Throw error ->
        let m := js "Could not read or parse package.json: " ++ message error in
        readManifest PROJECT_ROOT JSON_parse w = (Throw (CliError m), w)
        /\ run_main w
           = (1, {| root := root w;
                    console := console w ++ [(Stderr, chalk "red" m)] |})).
Proof.
  split.
  - intros Hno m.
    assert (E : readManifest PROJECT_ROOT JSON_parse w = (Throw (CliError m), w)).
    { unfold readManifest, readPackageJson, ensurePackageJsonExists.
      now rewrite Hno. }
    split; [exact E|]. unfold main, main_try, bind. now rewrite E.
  - intros raw error Hr Hp m.
    assert (Hex : world_existsSync w manifest_path = true)
      by exact (world_read_exists _ _ _ Hr).
    assert (E : readManifest PROJECT_ROOT JSON_parse w = (Throw (CliError m), w)).
    { unfold readManifest, readPackageJson, ensurePackageJsonExists.
      now rewrite Hex, Hr, Hp. }
    split; [exact E|]. unfold main, main_try, bind. now rewrite E.
Qed.

End HostProperties.

(** ** Instances *)

Lemma walk_never_enters_ignored_witness :
  walk [js "app"] (graft [js "node_modules"] (Dir []) demo_tree) walk_start
  = walk [js "app"] demo_tree walk_start.
Proof.
  apply (proj1 (proj2 (walk_never_enters_ignored [js "app"] demo_tree walk_start))
           [] (js "node_modules")
           [(js "pkg", Dir [(js "index.js", File (js "// eslint-disable"))])] []).
  - vm_compute. reflexivity.
  - vm_compute. reflexivity.
Defined.

Lemma manifest_mutations_keep_other_fields_witness :
  assoc (js "name") (withScripts true demo_members) = assoc (js "name") demo_members
  /\ fst (updatePackageJsonScripts scenario_root demo_parse no_stringify plain
            (project_with (js "demo")))
     = Ok tt.
Proof.
  pose proof (manifest_mutations_keep_other_fields scenario_root demo_parse
                no_stringify plain (project_with (js "demo")) demo_members)
    as (_ & Hscripts & Hwrite).
  split.
  - apply (proj1 (Hscripts true)). vm_compute. discriminate.
  - rewrite Hwrite by (vm_compute; reflexivity). vm_compute. reflexivity.
Defined.

Lemma manifest_failure_is_user_reported_witness :
  fst (main scenario_root parse_fails no_stringify quiet_execSync decline_all
         plain message no_fault empty_disk) = 1
  /\ fst (main scenario_root parse_fails no_stringify quiet_execSync decline_all
            plain message no_fault (project_with (js "{"))) = 1.
Proof.
  split.
  - pose proof (proj1 (manifest_failure_is_user_reported scenario_root
                         parse_fails no_stringify quiet_execSync decline_all
                         plain message no_fault empty_disk)) as H.
    cbv zeta in H. rewrite (proj2 (H ltac:(vm_compute; reflexivity))).
    reflexivity.
  - pose proof (proj2 (manifest_failure_is_user_reported scenario_root
                         parse_fails no_stringify quiet_execSync decline_all
                         plain message no_fault (project_with (js "{")))
                  (js "{") (OtherError (js "Unexpected end of JSON input"))) as H.
    cbv zeta in H.
    rewrite (proj2 (H ltac:(vm_compute; reflexivity) ltac:(reflexivity))).
    reflexivity.
Defined.

(* ===================================================================== *)
(** * Further properties of the code *)
(* ===================================================================== *)

(** ** Environment probing *)

Lemma find_first {A} (p : A -> bool) l x :
  find p l = Some x ->
  exists before after,
    l = before ++ x :: after
    /\ (forall y, In y before -> p y = false)
    /\ p x = true.
Proof.
  induction l as [|a l IH]; cbn [find]; [discriminate|].
  destruct (p a) eqn:Pa.
  - intros H. injection H as ->. exists [], l. repeat split; auto.
    intros y [].
  - intros H. destruct (IH H) as (before & after & -> & Hb & Hx).
    exists (a :: before), after. repeat split; auto.
    intros y [<-|Hy]; auto.
Qed.

Lemma path_eqb_eq (a b : path) : path_eqb a b = true <-> a = b.
Proof.
  revert b. induction a as [|x a IH]; intros [|y b]; cbn [path_eqb];
    split; try congruence; try reflexivity.
  - intros H. apply andb_true_iff in H as [Hx Hab].
    apply jsstring_eqb_eq in Hx. apply IH in Hab. congruence.
  - intros H. injection H as -> ->. rewrite jsstring_eqb_refl. now apply IH.
Qed.

Lemma PACKAGE_MANAGERS_get_range key v :
  PACKAGE_MANAGERS_get key = Some v ->
  (exists pm, v = Profile pm /\ In pm [pnpm; yarn; bun; npm])
  \/ (v = Inherited key /\ In key Object_prototype_keys).
Proof.
  unfold PACKAGE_MANAGERS_get.
  destruct (assoc key PACKAGE_MANAGERS) as [pm|] eqn:E.
  - intros H. injection H as <-. left. exists pm. split; [reflexivity|].
    unfold PACKAGE_MANAGERS in E. cbn [assoc] in E.
    repeat match type of E with
           | (if ?b then _ else _) = _ =>
               destruct b; [injection E as <-; cbn [In]; tauto|]
           end.
    discriminate.
  - destruct (existsb (jsstring_eqb key) Object_prototype_keys) eqn:X;
      [|discriminate].
    intros H. injection H as <-. right. split; [reflexivity|].
    apply existsb_exists in X as (k & Hk & Ek).
    apply jsstring_eqb_eq in Ek. now subst.
Qed.

Section ProbingFacts.

Variable PROJECT_ROOT : path.
Variable existsSync : path -> bool.
Variable readFileSync : path -> result jsstring.
Variable JSON_parse : jsstring -> result json.

Local Abbreviation here := (PATHS_packageJson PROJECT_ROOT).
Local Abbreviation upwards := (findUpwards PROJECT_ROOT existsSync).
Local Abbreviation by_lockfile :=
  (Profile
     (if exists_upwards PROJECT_ROOT existsSync (js "pnpm-lock.yaml") then pnpm
      else if exists_upwards PROJECT_ROOT existsSync (js "yarn.lock") then yarn
      else if exists_upwards PROJECT_ROOT existsSync (js "bun.lockb") then bun
      else npm)).

Lemma findUpwards_from_found filenames : forall current f,
  findUpwards_from existsSync filenames current = Some f ->
  exists closer farther before after,
    ancestors current = closer ++ directory f :: farther
    /\ filenames = before ++ name f :: after
    /\ file f = path_join (directory f) (name f)
    /\ existsSync (file f) = true
    /\ (forall n, In n before -> existsSync (path_join (directory f) n) = false)
    /\ (forall d n, In d closer -> In n filenames ->
          existsSync (path_join d n) = false).
Proof.
  assert (Hstep : forall current f,
            find (fun n => existsSync (path_join current n)) filenames = Some f ->
            exists before after,
              filenames = before ++ f :: after
              /\ existsSync (path_join current f) = true
              /\ (forall n, In n before -> existsSync (path_join current n) = false)).
  { intros current f H. destruct (find_first _ _ _ H) as (b & a & E & Hb & Hx).
    now exists b, a. }
  induction current as [|c parent IH]; intros f; cbn [findUpwards_from].
  - destruct (find _ filenames) as [n|] eqn:E; [|discriminate].
    intros H. injection H as <-. cbn [directory name file].
    destruct (Hstep _ _ E) as (b & a & Ef & Hx & Hb).
    exists [], [], b, a. repeat split; auto. intros d0 n0 [].
  - destruct (find _ filenames) as [n|] eqn:E.
    + intros H. injection H as <-. cbn [directory name file].
      destruct (Hstep _ _ E) as (b & a & Ef & Hx & Hb).
      exists [], (ancestors parent), b, a. repeat split; auto. intros d0 n0 [].
    + intros H. destruct (IH f H) as (cl & fa & b & a & Ea & Ef & Hfile & Hx & Hb & Hc).
      exists ((c :: parent) :: cl), fa, b, a. cbn [ancestors].
      rewrite Ea. repeat split; auto.
      intros d0 n0 [<-|Hd] Hn; [|now apply Hc].
      exact (find_none _ _ E n0 Hn).
Qed.

(** X1: what [findUpwards] returns is the nearest directory, from the
    working directory upwards, that holds one of the candidates, with the
    first candidate of the list that exists there; it returns nothing
    exactly when no candidate exists at any level. *)
Theorem findUpwards_nearest_first filenames :
  (forall f, upwards filenames = Some f ->
     exists closer farther before after,
       ancestors PROJECT_ROOT = closer ++ directory f :: farther
       /\ filenames = before ++ name f :: after
       /\ file f = path_join (directory f) (name f)
       /\ existsSync (file f) = true
       /\ (forall n, In n before ->
             existsSync (path_join (directory f) n) = false)
       /\ (forall d n, In d closer -> In n filenames ->
             existsSync (path_join d n) = false))
  /\ (upwards filenames = None
      <-> forall n, In n filenames ->
            exists_upwards PROJECT_ROOT existsSync n = false).
Proof.
  split.
  - intros f. apply findUpwards_from_found.
  - apply findUpwards_from_exists.
Qed.

Lemma lockfiles_by_priority :
  match detectFromLockfiles PROJECT_ROOT existsSync PACKAGE_MANAGER_PRIORITY with
  | Some candidate => Profile candidate
  | None => Profile npm
  end = by_lockfile.
Proof.
  rewrite <- !findUpwards_single.
  unfold PACKAGE_MANAGER_PRIORITY. cbn [detectFromLockfiles].
  change (assoc (js "pnpm") PACKAGE_MANAGERS) with (Some pnpm).
  change (assoc (js "yarn") PACKAGE_MANAGERS) with (Some yarn).
  change (assoc (js "bun") PACKAGE_MANAGERS) with (Some bun).
  cbn [lockFile pnpm yarn bun].
  destruct (upwards [js "pnpm-lock.yaml"]); [reflexivity|].
  destruct (upwards [js "yarn.lock"]); [reflexivity|].
  destruct (upwards [js "bun.lockb"]); reflexivity.
Qed.

Lemma upwards_finds_local :
  existsSync here = true ->
  upwards [js "package.json"]
  = Some {| directory := PROJECT_ROOT; file := here; name := js "package.json" |}.
Proof.
  intros H. unfold findUpwards.
  destruct PROJECT_ROOT as [|c parent]; cbn [findUpwards_from find];
    unfold PATHS_packageJson in H; rewrite H; reflexivity.
Qed.

Lemma detect_with_local read :
  existsSync here = true ->
  detectPackageManager PROJECT_ROOT existsSync read JSON_parse
  = match extractFromPackageManagerField read JSON_parse (Some here) with
    | Some v => v
    | None => by_lockfile
    end.
Proof.
  intros H. unfold detectPackageManager.
  destruct (extractFromPackageManagerField read JSON_parse (Some here));
    [reflexivity|].
  rewrite (upwards_finds_local H). cbn [file].
  rewrite (proj2 (path_eqb_eq here here) eq_refl). cbn [negb].
  apply lockfiles_by_priority.
Qed.

(** X2: when the working directory has a [package.json], no manifest of a
    directory above is ever read: detection gives the same result for any
    two file systems that agree on which files exist and on the content of
    the local manifest (a [packageManager] declared further up in a
    monorepo has no influence). *)
Theorem local_manifest_hides_ancestors readFileSync' :
  existsSync here = true ->
  readFileSync' here = readFileSync here ->
  detectPackageManager PROJECT_ROOT existsSync readFileSync' JSON_parse
  = detectPackageManager PROJECT_ROOT existsSync readFileSync JSON_parse.
Proof.
  intros Hex Hsame. rewrite !detect_with_local by assumption.
  unfold extractFromPackageManagerField. now rewrite Hsame.
Qed.

(** X3: without a [package.json] in the working directory, the nearest one
    above decides when it declares a known manager, before any lockfile is
    looked for. *)
Theorem ancestor_manifest_decides up managerName pm version failure raw parsed :
  existsSync here = false ->
  readFileSync here = Throw failure ->
  upwards [js "package.json"] = Some up ->
  readFileSync (file up) = Ok raw ->
  JSON_parse raw = Ok parsed ->
  member parsed (js "packageManager")
    = Some (JString (managerName ++ AT_SIGN :: version)) ->
  In (managerName, pm) PACKAGE_MANAGERS ->
  detectPackageManager PROJECT_ROOT existsSync readFileSync JSON_parse
  = Profile pm.
Proof.
  intros Hno Hfail Hup Hr Hp Hm Hin. unfold detectPackageManager.
  assert (E0 : extractFromPackageManagerField readFileSync JSON_parse (Some here)
               = None).
  { unfold extractFromPackageManagerField. now rewrite Hfail. }
  rewrite E0, Hup.
  assert (Hne : path_eqb (file up) here = false).
  { destruct (path_eqb (file up) here) eqn:E; [|reflexivity].
    apply path_eqb_eq in E.
    destruct (findUpwards_from_found _ _ _ Hup)
      as (_ & _ & _ & _ & _ & _ & Hx & _).
    rewrite E in Hx. congruence. }
  rewrite Hne. cbn [negb].
  rewrite (extract_declared readFileSync JSON_parse _ _ _ _ Hr Hp Hm).
  unfold PACKAGE_MANAGERS in Hin. cbn [In] in Hin.
  destruct Hin as [E|[E|[E|[E|[]]]]]; injection E as <- <-;
    (rewrite split_head_app by (vm_compute; intuition discriminate));
    reflexivity.
Qed.

(** X4: detection returns one of the four profiles, or else a member that
    the manager table inherits from [Object.prototype], under one of its
    twelve names. *)
Theorem detection_range :
  (exists pm,
     detectPackageManager PROJECT_ROOT existsSync readFileSync JSON_parse
     = Profile pm
     /\ In pm [pnpm; yarn; bun; npm])
  \/ (exists key,
        detectPackageManager PROJECT_ROOT existsSync readFileSync JSON_parse
        = Inherited key
        /\ In key Object_prototype_keys).
Proof.
  assert (Hx : forall p v,
            extractFromPackageManagerField readFileSync JSON_parse p = Some v ->
            (exists pm, v = Profile pm /\ In pm [pnpm; yarn; bun; npm])
            \/ (exists key, v = Inherited key /\ In key Object_prototype_keys)).
  { intros p v. unfold extractFromPackageManagerField.
    destruct p as [p|]; [|discriminate].
    destruct (readFileSync p) as [raw|]; [|discriminate].
    destruct (JSON_parse raw) as [parsed|]; [|discriminate].
    destruct parsed as [|b|x|str|items|ms]; try discriminate.
    cbn [member]. destruct (assoc (js "packageManager") ms) as [d|]; [|discriminate].
    destruct d; try discriminate.
    intros H. destruct (PACKAGE_MANAGERS_get_range _ _ H) as [?|[-> ?]];
      [now left|right; eauto]. }
  unfold detectPackageManager.
  destruct (extractFromPackageManagerField _ _ (Some here)) as [v|] eqn:E1.
  { destruct (Hx _ _ E1) as [(pm & -> & H)|(k & -> & H)]; [left|right]; eauto. }
  destruct (match upwards [js "package.json"] with
            | Some upstreamPkg =>
                if negb (path_eqb (file upstreamPkg) here)
                then extractFromPackageManagerField readFileSync JSON_parse
                       (Some (file upstreamPkg))
                else None
            | None => None
            end) as [v|] eqn:E2.
  { assert (Hv : exists p,
              extractFromPackageManagerField readFileSync JSON_parse p = Some v).
    { destruct (upwards [js "package.json"]) as [up|]; [|discriminate].
      destruct (negb _); [|discriminate]. eauto. }
    destruct Hv as [p Hv].
    destruct (Hx _ _ Hv) as [(pm & -> & H)|(k & -> & H)]; [left|right]; eauto. }
  left. rewrite lockfiles_by_priority.
  eexists. split; [reflexivity|].
  destruct (exists_upwards _ _ (js "pnpm-lock.yaml")); [cbn; tauto|].
  destruct (exists_upwards _ _ (js "yarn.lock")); [cbn; tauto|].
  destruct (exists_upwards _ _ (js "bun.lockb")); cbn; tauto.
Qed.

(** X5: [readPackageJson] returns the parsed manifest exactly when the
    file exists, can be read and parses; every failure it throws is a
    [CliError]. *)
Theorem readPackageJson_outcomes :
  (forall pkg,
     readPackageJson PROJECT_ROOT existsSync readFileSync JSON_parse = Ok pkg
     <-> existsSync here = true
         /\ exists raw, readFileSync here = Ok raw /\ JSON_parse raw = Ok pkg)
  /\ (forall e,
        readPackageJson PROJECT_ROOT existsSync readFileSync JSON_parse = Throw e ->
        exists m, e = CliError m).
Proof.
  unfold readPackageJson, ensurePackageJsonExists. split.
  - intros pkg. destruct (existsSync here); cbn [negb].
    + destruct (readFileSync here) as [raw|e].
      * destruct (JSON_parse raw) as [v|e] eqn:P; split.
        -- intros H. injection H as ->. split; [reflexivity|]. now exists raw.
        -- intros [_ (raw' & Hr & Hp)]. injection Hr as <-. congruence.
        -- discriminate.
        -- intros [_ (raw' & Hr & Hp)]. injection Hr as <-. congruence.
      * split; [discriminate|]. intros [_ (raw' & Hr & _)]. discriminate.
    + split; [discriminate|]. intros [H _]. discriminate.
  - intros e. destruct (existsSync here); cbn [negb].
    + destruct (readFileSync here) as [raw|e'].
      * destruct (JSON_parse raw) as [v|e'']; [discriminate|].
        intros H. injection H as <-. eauto.
      * intros H. injection H as <-. eauto.
    + intros H. injection H as <-. eauto.
Qed.

End ProbingFacts.

Lemma findUpwards_nearest_first_witness :
  exists closer farther before after,
    ancestors split_root = closer ++ [js "app"; js "repo"] :: farther
    /\ [js "pnpm-lock.yaml"; js "yarn.lock"; js "bun.lockb"]
       = before ++ js "yarn.lock" :: after.
Proof.
  destruct (proj1 (findUpwards_nearest_first split_root split_existsSync
                     [js "pnpm-lock.yaml"; js "yarn.lock"; js "bun.lockb"])
              {| directory := [js "app"; js "repo"];
                 file := [js "yarn.lock"; js "app"; js "repo"];
                 name := js "yarn.lock" |}
              ltac:(vm_compute; reflexivity))
    as (closer & farther & before & after & Ha & Hf & _).
  exists closer, farther, before, after. split; assumption.
Defined.

Lemma local_manifest_hides_ancestors_witness :
  detectPackageManager scenario_root scenario_existsSync
    (fun _ => Ok (declaring_text (js "pnpm@9.0.0")))
    (scenario_parse (js "pnpm@9.0.0"))
  = detectPackageManager scenario_root scenario_existsSync
      (scenario_readFileSync (js "pnpm@9.0.0"))
      (scenario_parse (js "pnpm@9.0.0")).
Proof.
  apply local_manifest_hides_ancestors.
  - vm_compute. reflexivity.
  - vm_compute. reflexivity.
Defined.

Lemma ancestor_manifest_decides_witness :
  detectPackageManager split_root monorepo_existsSync
    (monorepo_readFileSync (js "yarn@4.1.0")) (scenario_parse (js "yarn@4.1.0"))
  = Profile yarn.
Proof.
  apply (ancestor_manifest_decides split_root monorepo_existsSync
           (monorepo_readFileSync (js "yarn@4.1.0"))
           (scenario_parse (js "yarn@4.1.0"))
           {| directory := [js "repo"];
              file := [js "package.json"; js "repo"];
              name := js "package.json" |}
           (js "yarn") yarn (js "4.1.0")
           (OtherError (js "ENOENT: no such file or directory, open"))
           (declaring_text (js "yarn@4.1.0"))
           (declaring_manifest (js "yarn@4.1.0"))).
  - vm_compute. reflexivity.
  - vm_compute. reflexivity.
  - vm_compute. reflexivity.
  - vm_compute. reflexivity.
  - vm_compute. reflexivity.
  - vm_compute. reflexivity.
  - right. left. reflexivity.
Defined.

(** ** Manifest inspection and mutation *)

(** X6: a project is inferred to be a React project exactly when one of
    the four dependency groups is truthy and lists [next], [react] or
    [react-dom] with a truthy value (an empty version string does not
    count); otherwise it is a Node project. *)
Theorem inferProjectType_react_iff pkg :
  inferProjectType pkg = PROJECT_TYPE.react
  <-> exists field deps,
        In field dependencyFields
        /\ member pkg field = Some deps
        /\ truthy (Some deps) = true
        /\ (truthy (member deps (js "next")) = true
            \/ truthy (member deps (js "react")) = true
            \/ truthy (member deps (js "react-dom")) = true).
Proof.
  unfold inferProjectType.
  induction dependencyFields as [|f fields IH]; cbn [inferProjectType_loop].
  - split; [discriminate|]. intros (field & deps & [] & _).
  - destruct (member pkg f) as [deps|] eqn:Em.
    + destruct (truthy (Some deps)) eqn:Et; cbn [negb].
      * destruct (truthy (member deps (js "next"))
                  || truthy (member deps (js "react"))
                  || truthy (member deps (js "react-dom"))) eqn:Ef.
        -- split; [|reflexivity]. intros _. exists f, deps.
           repeat split; auto; [now left|].
           apply orb_true_iff in Ef as [Ef|Ef]; [|tauto].
           apply orb_true_iff in Ef as [Ef|Ef]; tauto.
        -- rewrite IH. split.
           ++ intros (field & d & Hin & H). exists field, d. split; [now right|exact H].
           ++ intros (field & d & [<-|Hin] & Hm & Ht & Hd).
              ** rewrite Em in Hm. injection Hm as <-.
                 apply orb_false_iff in Ef as [Ef E3].
                 apply orb_false_iff in Ef as [E1 E2].
                 rewrite E1, E2, E3 in Hd. intuition discriminate.
              ** exists field, d. auto.
      * rewrite IH. split.
        -- intros (field & d & Hin & H). exists field, d. split; [now right|exact H].
        -- intros (field & d & [<-|Hin] & Hm & Ht & Hd).
           ++ rewrite Em in Hm. injection Hm as <-. congruence.
           ++ exists field, d. auto.
    + rewrite IH. split.
      * intros (field & d & Hin & H). exists field, d. split; [now right|exact H].
      * intros (field & d & [<-|Hin] & Hm & Ht & Hd).
        -- congruence.
        -- exists field, d. auto.
Qed.

Lemma set_key_same_value {A} key (v : A) ms :
  assoc key ms = Some v -> set_key key v ms = ms.
Proof.
  induction ms as [|[k x] ms IH]; cbn [assoc set_key]; [discriminate|].
  destruct (jsstring_eqb k key).
  - intros H. now injection H as ->.
  - intros H. now rewrite IH.
Qed.

Lemma assoc_remove_key_same {A} key (ms : list (jsstring * A)) :
  assoc key (remove_key key ms) = None.
Proof.
  unfold remove_key. induction ms as [|[k x] ms IH]; [reflexivity|].
  cbn [filter fst]. destruct (jsstring_eqb k key) eqn:E; cbn [negb]; [exact IH|].
  cbn [assoc]. now rewrite E.
Qed.

Ltac other_key := vm_compute; discriminate.

Lemma setScripts_lookup isTs scripts :
  exists scripts',
    setScripts isTs (JObject scripts) = JObject scripts'
    /\ assoc (js "lint") scripts'
       = Some (JString
           (if isTs
            then js "biome lint --diagnostic-level=error --no-errors-on-unmatched && type-check"
            else js "biome lint --diagnostic-level=error --no-errors-on-unmatched"))
    /\ assoc (js "lint:fix") scripts'
       = Some (JString
           (if isTs then js "biome check --write --unsafe && type-check"
            else js "biome check --write --unsafe"))
    /\ assoc (js "type-check") scripts'
       = (if isTs then Some (JString (js "tsc -b --noEmit"))
          else assoc (js "type-check") scripts).
Proof.
  unfold setScripts. destruct isTs; cbn [assign_member]; eexists;
    (split; [reflexivity|]); repeat split.
  - rewrite assoc_set_key_other by other_key. apply assoc_set_key_same.
  - apply assoc_set_key_same.
  - rewrite !assoc_set_key_other by other_key. apply assoc_set_key_same.
  - rewrite assoc_set_key_other by other_key. apply assoc_set_key_same.
  - apply assoc_set_key_same.
  - now rewrite !assoc_set_key_other by other_key.
Qed.

(** X7: when [scripts] is missing, falsy or an object, the updated
    manifest has a [scripts] object whose [lint] and [lint:fix] are the
    Biome commands, with the [&& type-check] step and a [type-check]
    script exactly for a TypeScript project; without TypeScript an
    existing [type-check] script is left as it was. *)
Theorem scripts_after_update isTs members :
  truthy (assoc (js "scripts") members) = false
  \/ (exists scripts, assoc (js "scripts") members = Some (JObject scripts)) ->
  exists scripts',
    assoc (js "scripts") (withScripts isTs members) = Some (JObject scripts')
    /\ assoc (js "lint") scripts'
       = Some (JString
           (if isTs
            then js "biome lint --diagnostic-level=error --no-errors-on-unmatched && type-check"
            else js "biome lint --diagnostic-level=error --no-errors-on-unmatched"))
    /\ assoc (js "lint:fix") scripts'
       = Some (JString
           (if isTs then js "biome check --write --unsafe && type-check"
            else js "biome check --write --unsafe"))
    /\ assoc (js "type-check") scripts'
       = (if isTs then Some (JString (js "tsc -b --noEmit"))
          else assoc (js "type-check") (scripts_of members)).
Proof.
  intros H. unfold withScripts, scripts_of. rewrite assoc_set_key_same.
  destruct H as [H|[scripts H]].
  - rewrite H. destruct (setScripts_lookup isTs []) as (s' & -> & H1 & H2 & H3).
    exists s'. repeat split; auto. rewrite H3.
    destruct isTs; [reflexivity|].
    destruct (assoc (js "scripts") members) as [[]|]; try reflexivity.
    discriminate.
  - rewrite H. cbn [truthy].
    destruct (setScripts_lookup isTs scripts) as (s' & -> & H1 & H2 & H3).
    exists s'. repeat split; auto.
Qed.

Lemma scripts_after_update_witness :
  exists scripts',
    assoc (js "scripts") (withScripts true demo_members) = Some (JObject scripts')
    /\ assoc (js "type-check") scripts' = Some (JString (js "tsc -b --noEmit")).
Proof.
  destruct (scripts_after_update true demo_members) as (s' & H & _ & _ & H3).
  - right. eexists. vm_compute. reflexivity.
  - exists s'. split; assumption.
Defined.

Lemma setScripts_again isTs scripts :
  setScripts isTs (setScripts isTs (JObject scripts))
  = setScripts isTs (JObject scripts).
Proof.
  destruct (setScripts_lookup isTs scripts) as (s' & E & H1 & H2 & H3).
  rewrite E. unfold setScripts. destruct isTs; cbn [assign_member].
  - rewrite (set_key_same_value (js "type-check") _ s' H3).
    rewrite (set_key_same_value (js "lint") _ s' H1).
    now rewrite (set_key_same_value (js "lint:fix") _ s' H2).
  - rewrite (set_key_same_value (js "lint") _ s' H1).
    now rewrite (set_key_same_value (js "lint:fix") _ s' H2).
Qed.

Lemma setScripts_not_object isTs v :
  is_object v = false -> setScripts isTs v = v.
Proof. unfold setScripts. destruct v; try discriminate; now destruct isTs. Qed.

Lemma set_key_twice {A} key (v v' : A) ms :
  set_key key v' (set_key key v ms) = set_key key v' ms.
Proof.
  induction ms as [|[k x] ms IH]; cbn [set_key].
  - now rewrite jsstring_eqb_refl.
  - destruct (jsstring_eqb k key) eqn:E; cbn [set_key]; rewrite E;
      [reflexivity|]. now rewrite IH.
Qed.

(** X8: updating the scripts a second time changes nothing: the update is
    idempotent on every manifest object. *)
Theorem scripts_update_idempotent isTs members :
  withScripts isTs (withScripts isTs members) = withScripts isTs members.
Proof.
  unfold withScripts. cbv zeta. rewrite set_key_twice, assoc_set_key_same.
  remember (if truthy (assoc (js "scripts") members)
            then match assoc (js "scripts") members with
                 | Some v => v
                 | None => JObject []
                 end
            else JObject []) as scripts eqn:Es.
  assert (Ht : truthy (Some scripts) = true).
  { subst scripts. destruct (truthy (assoc (js "scripts") members)) eqn:E;
      [|reflexivity].
    destruct (assoc (js "scripts") members); [exact E|reflexivity]. }
  assert (Hs : setScripts isTs (setScripts isTs scripts) = setScripts isTs scripts
               /\ truthy (Some (setScripts isTs scripts)) = true).
  { clear Es. destruct (is_object scripts) eqn:Eo.
    - destruct scripts as [| | | | |ms]; try discriminate.
      split; [apply setScripts_again|].
      destruct (setScripts_lookup isTs ms) as (s' & -> & _). reflexivity.
    - rewrite !(setScripts_not_object isTs scripts Eo). now split. }
  destruct Hs as [Hs Ht']. rewrite Ht'. now rewrite Hs.
Qed.

(** X9: a [scripts] member that is truthy without being an object (a
    string, a number, [true], an array) defeats the update: no script is
    added and the manifest stays as it was. *)
Theorem scripts_not_an_object_unchanged isTs members scripts :
  assoc (js "scripts") members = Some scripts ->
  truthy (Some scripts) = true ->
  is_object scripts = false ->
  withScripts isTs members = members.
Proof.
  intros Hs Ht Ho. unfold withScripts. rewrite Hs, Ht.
  apply set_key_same_value. rewrite Hs. f_equal.
  symmetry. now apply setScripts_not_object.
Qed.

Lemma scripts_not_an_object_unchanged_witness :
  withScripts true [(js "name", JString (js "demo")); (js "scripts", JBool true)]
  = [(js "name", JString (js "demo")); (js "scripts", JBool true)].
Proof.
  apply (scripts_not_an_object_unchanged true _ (JBool true)); reflexivity.
Defined.

Lemma cleanup_settled members :
  truthy (assoc (js "eslintConfig") members) = false ->
  truthy (assoc (js "prettier") members) = false ->
  cleanEslintPrettierConfig (JObject members) = (JObject members, false).
Proof. intros H1 H2. unfold cleanEslintPrettierConfig. now rewrite H1, H2. Qed.

Lemma cleanup_result members :
  cleanEslintPrettierConfig (JObject members)
  = (JObject
       ((if truthy (assoc (js "prettier") members)
         then remove_key (js "prettier") else fun ms => ms)
          ((if truthy (assoc (js "eslintConfig") members)
            then remove_key (js "eslintConfig") else fun ms => ms) members)),
     truthy (assoc (js "eslintConfig") members)
     || truthy (assoc (js "prettier") members)).
Proof.
  unfold cleanEslintPrettierConfig.
  destruct (truthy (assoc (js "eslintConfig") members)).
  - rewrite (assoc_remove_key_other (js "eslintConfig") (js "prettier"))
      by other_key.
    now destruct (truthy (assoc (js "prettier") members)).
  - now destruct (truthy (assoc (js "prettier") members)).
Qed.

(** X10: the cleanup reports a change exactly when [eslintConfig] or
    [prettier] holds a truthy value; a key with a falsy value ([null],
    [false], [0], the empty string) is kept; afterwards neither key holds a
    truthy value, and a second cleanup changes nothing and reports no
    change. *)
Theorem cleanup_reports_and_settles members :
  let cleaned := fst (cleanEslintPrettierConfig (JObject members)) in
  snd (cleanEslintPrettierConfig (JObject members))
  = truthy (assoc (js "eslintConfig") members)
    || truthy (assoc (js "prettier") members)
  /\ truthy (member cleaned (js "eslintConfig")) = false
  /\ truthy (member cleaned (js "prettier")) = false
  /\ (truthy (assoc (js "eslintConfig") members) = false ->
      member cleaned (js "eslintConfig") = assoc (js "eslintConfig") members)
  /\ (truthy (assoc (js "prettier") members) = false ->
      member cleaned (js "prettier") = assoc (js "prettier") members)
  /\ cleanEslintPrettierConfig cleaned = (cleaned, false).
Proof.
  cbv zeta. rewrite cleanup_result. cbn [fst snd member].
  split; [reflexivity|].
  assert (H1 : truthy (assoc (js "eslintConfig")
                 ((if truthy (assoc (js "prettier") members)
                   then remove_key (js "prettier") else fun ms => ms)
                    ((if truthy (assoc (js "eslintConfig") members)
                      then remove_key (js "eslintConfig") else fun ms => ms)
                       members))) = false).
  { destruct (truthy (assoc (js "prettier") members));
      [rewrite (assoc_remove_key_other (js "prettier") (js "eslintConfig"))
         by other_key|];
      (destruct (truthy (assoc (js "eslintConfig") members)) eqn:E;
       [now rewrite assoc_remove_key_same|exact E]). }
  assert (H2 : truthy (assoc (js "prettier")
                 ((if truthy (assoc (js "prettier") members)
                   then remove_key (js "prettier") else fun ms => ms)
                    ((if truthy (assoc (js "eslintConfig") members)
                      then remove_key (js "eslintConfig") else fun ms => ms)
                       members))) = false).
  { destruct (truthy (assoc (js "prettier") members)) eqn:E;
      [now rewrite assoc_remove_key_same|].
    destruct (truthy (assoc (js "eslintConfig") members));
      [rewrite (assoc_remove_key_other (js "eslintConfig") (js "prettier"))
         by other_key|]; exact E. }
  split; [exact H1|]. split; [exact H2|]. split; [|split].
  - intros E. rewrite E.
    destruct (truthy (assoc (js "prettier") members)); [|reflexivity].
    now rewrite (assoc_remove_key_other (js "prettier") (js "eslintConfig"))
      by other_key.
  - intros E. rewrite E.
    destruct (truthy (assoc (js "eslintConfig") members)); [|reflexivity].
    now rewrite (assoc_remove_key_other (js "eslintConfig") (js "prettier"))
      by other_key.
  - now apply cleanup_settled.
Qed.

Lemma cleanup_reports_and_settles_witness :
  member (fst (cleanEslintPrettierConfig
                 (JObject [(js "eslintConfig", JNull); (js "prettier", JObject [])])))
    (js "eslintConfig")
  = Some JNull.
Proof.
  apply (proj1 (proj2 (proj2 (proj2
           (cleanup_reports_and_settles
              [(js "eslintConfig", JNull); (js "prettier", JObject [])]))))).
  reflexivity.
Defined.

(** ** The scrubber and its walk *)

Lemma from_last_dot_none s : ~ In DOT s -> from_last_dot s = None.
Proof.
  induction s as [|c s IH]; intros H; [reflexivity|]. cbn [from_last_dot].
  rewrite IH by (intros Hs; apply H; now right).
  destruct (N.eqb c DOT) eqn:E; [|reflexivity].
  apply N.eqb_eq in E. elim H. now left.
Qed.

Lemma from_last_dot_app stem e :
  ~ In DOT e -> from_last_dot (stem ++ DOT :: e) = Some (DOT :: e).
Proof.
  intros He. induction stem as [|c stem IH]; cbn [app from_last_dot].
  - now rewrite (from_last_dot_none e He).
  - now rewrite IH.
Qed.

Lemma from_last_dot_suffix s : forall e,
  from_last_dot s = Some e -> exists stem, s = stem ++ e.
Proof.
  induction s as [|c s IH]; intros e; cbn [from_last_dot]; [discriminate|].
  destruct (from_last_dot s) as [e'|].
  - intros H. injection H as <-. destruct (IH e' eq_refl) as [stem ->].
    now exists (c :: stem).
  - destruct (N.eqb c DOT); [|discriminate].
    intros H. injection H as <-. now exists [].
Qed.

Lemma code_extension_shape ext :
  In ext CODE_EXTENSIONS ->
  exists e, ext = DOT :: e /\ ~ In DOT e /\ 2 <= List.length e.
Proof.
  unfold CODE_EXTENSIONS. cbn [In]. intros H.
  repeat (destruct H as [<-|H];
          [eexists; split; [reflexivity|];
           split; [vm_compute; intuition discriminate|vm_compute; lia]|]).
  contradiction.
Qed.

Lemma Set_has_In set x : Set_has set x = true <-> In x set.
Proof.
  unfold Set_has. rewrite existsb_exists. split.
  - intros (y & Hy & E). apply jsstring_eqb_eq in E. now subst.
  - intros H. exists x. split; [assumption|apply jsstring_eqb_refl].
Qed.

(** X11: an entry is taken for a code file exactly when its name is a
    non-empty stem followed by one of the nine extensions, in that letter
    case; a file named by the extension alone, such as [.js], is not. *)
Theorem isCodeFile_iff directory entryName :
  isCodeFile (path_join directory entryName) = true
  <-> exists stem ext,
        entryName = stem ++ ext /\ stem <> [] /\ In ext CODE_EXTENSIONS.
Proof.
  unfold isCodeFile, path_join. rewrite Set_has_In. cbn [path_extname]. split.
  - destruct entryName as [|c rest]; [intros H; revert H; vm_compute; intuition discriminate|].
    destruct (from_last_dot rest) as [e|] eqn:E;
      [|intros H; revert H; vm_compute; intuition discriminate].
    destruct (jsstring_eqb (c :: rest) (js ".."));
      [intros H; revert H; vm_compute; intuition discriminate|].
    intros H. destruct (from_last_dot_suffix _ _ E) as [stem ->].
    exists (c :: stem), e. repeat split; [discriminate|assumption].
  - intros (stem & ext & -> & Hstem & Hext).
    destruct stem as [|c stem]; [contradiction|]. cbn [app].
    destruct (code_extension_shape ext Hext) as (e & -> & He & Hlen).
    rewrite (from_last_dot_app stem e He).
    destruct (jsstring_eqb (c :: stem ++ DOT :: e) (js "..")) eqn:E;
      [|assumption].
    apply jsstring_eqb_eq in E. apply (f_equal (@List.length _)) in E.
    cbn [List.length] in E. rewrite length_app in E. cbn [List.length] in E.
    change (List.length (js "..")) with 2 in E. lia.
Qed.

Lemma add_state_assoc a b c :
  add_state (add_state a b) c = add_state a (add_state b c).
Proof.
  unfold add_state. cbn [stats writes filesScanned filesTouched totalCommentsRemoved].
  rewrite !Nat.add_assoc, app_assoc. reflexivity.
Qed.

Lemma add_state_start st : add_state st walk_start = st.
Proof.
  destruct st as [[a b c] w]. unfold add_state, walk_start.
  cbn [stats writes filesScanned filesTouched totalCommentsRemoved].
  now rewrite !Nat.add_0_r, app_nil_r.
Qed.

Lemma scrub_file_additive entryPath content st :
  scrub_file entryPath content st
  = add_state st (scrub_file entryPath content walk_start).
Proof.
  destruct st as [[a b c] w]. unfold scrub_file, add_state, walk_start.
  destruct (0 <? removedCount (stripEslintCommentsFromContent content))%nat;
    cbn [stats writes filesScanned filesTouched totalCommentsRemoved app];
    rewrite ?Nat.add_0_r, ?Nat.add_1_r, ?app_nil_r; reflexivity.
Qed.

Lemma walk_fold_additive directory entries :
  Forall (fun e => forall dir st,
            walk_entry dir (fst e) (snd e) st
            = add_state st (walk_entry dir (fst e) (snd e) walk_start)) entries ->
  forall st, walk directory entries st
             = add_state st (walk directory entries walk_start).
Proof.
  induction 1 as [|e entries He _ IH]; intros st.
  - unfold walk. cbn [fold_left]. symmetry. apply add_state_start.
  - rewrite !walk_cons. rewrite IH, He.
    rewrite (IH (walk_entry directory (fst e) (snd e) walk_start)).
    apply add_state_assoc.
Qed.

Lemma walk_entry_additive entry : forall directory entryName st,
  walk_entry directory entryName entry st
  = add_state st (walk_entry directory entryName entry walk_start).
Proof.
  induction entry as [content|entries IH|target|] using fsnode_nested_ind;
    intros directory entryName st.
  - cbn [walk_entry].
    destruct (negb (isCodeFile (path_join directory entryName)));
      [symmetry; apply add_state_start|apply scrub_file_additive].
  - rewrite !walk_entry_dir.
    destruct (shouldIgnoreDir entryName); [symmetry; apply add_state_start|].
    apply walk_fold_additive.
    eapply Forall_impl; [|exact IH]. intros e He dir st'. apply He.
  - symmetry. apply add_state_start.

  - symmetry. apply add_state_start.
Qed.

Lemma scrub_file_consistent entryPath content st :
  consistent st -> consistent (scrub_file entryPath content st).
Proof.
  unfold consistent, scrub_file. intros (H1 & H2 & H3).
  destruct (0 <? removedCount (stripEslintCommentsFromContent content))%nat eqn:E;
    cbn [stats writes filesScanned filesTouched totalCommentsRemoved].
  - apply Nat.ltb_lt in E. rewrite length_app. cbn [List.length]. lia.
  - lia.
Qed.

Lemma walk_fold_consistent directory entries :
  Forall (fun e => forall dir st,
            consistent st -> consistent (walk_entry dir (fst e) (snd e) st))
    entries ->
  forall st, consistent st -> consistent (walk directory entries st).
Proof.
  induction 1 as [|e entries He _ IH]; intros st Hst; [exact Hst|].
  rewrite walk_cons. apply IH. now apply He.
Qed.

Lemma walk_entry_consistent entry : forall directory entryName st,
  consistent st -> consistent (walk_entry directory entryName entry st).
Proof.
  induction entry as [content|entries IH|target|] using fsnode_nested_ind;
    intros directory entryName st Hst.
  - cbn [walk_entry].
    destruct (negb (isCodeFile (path_join directory entryName)));
      [exact Hst|now apply scrub_file_consistent].
  - rewrite walk_entry_dir.
    destruct (shouldIgnoreDir entryName); [exact Hst|].
    apply walk_fold_consistent; [|exact Hst].
    eapply Forall_impl; [|exact IH]. intros e He dir st'. apply He.
  - exact Hst.

  - exact Hst.
Qed.

(** X12: the report of a walk is consistent: a walk started from other
    counters adds to them what it finds from zero, and in what it finds the
    files modified are no more than the files scanned and no more than the
    occurrences removed, one file being written for each file counted as
    modified. *)
Theorem walk_report_consistent directory entries st :
  let found := walk directory entries walk_start in
  walk directory entries st = add_state st found
  /\ filesTouched (stats found) <= filesScanned (stats found)
  /\ filesTouched (stats found) <= totalCommentsRemoved (stats found)
  /\ List.length (writes found) = filesTouched (stats found).
Proof.
  cbv zeta. split.
  - apply walk_fold_additive. apply Forall_forall. intros e _ dir st'.
    apply walk_entry_additive.
  - apply (walk_fold_consistent directory entries).
    + apply Forall_forall. intros e _ dir st'. apply walk_entry_consistent.
    + unfold consistent, walk_start. cbn. lia.
Qed.

Lemma holds_file_incl es1 es2 rpath content :
  (forall e, In e es1 -> In e es2) ->
  holds_file es1 rpath content -> holds_file es2 rpath content.
Proof.
  intros Hincl. destruct rpath as [|d rest]; cbn [holds_file]; [auto|].
  destruct rest as [|d' rest'].
  - apply Hincl.
  - intros (sub & Hin & H). exists sub. split; [now apply Hincl|exact H].
Qed.

Lemma scrubbed_file_below directory entryName sub w :
  scrubbed_file (path_join directory entryName) sub w ->
  scrubbed_file directory [(entryName, Dir sub)] w.
Proof.
  intros (rel & original & Hp & Hh & Hc & Hm & Hn & Hl).
  exists (entryName :: rel), original. repeat split; auto.
  - rewrite Hp. cbn [rev]. unfold path_join. now rewrite <- app_assoc.
  - cbn [holds_file]. destruct rel as [|d rest]; [contradiction|].
    exists sub. split; [now left|exact Hh].
Qed.

Lemma scrubbed_file_incl directory es1 es2 w :
  (forall e, In e es1 -> In e es2) ->
  scrubbed_file directory es1 w -> scrubbed_file directory es2 w.
Proof.
  intros Hincl (rel & original & Hp & Hh & H).
  exists rel, original. split; [exact Hp|]. split; [|exact H].
  now apply (holds_file_incl es1 es2).
Qed.

Lemma walk_fold_scrubbed directory entries :
  Forall (fun e => forall dir st w,
            In w (writes (walk_entry dir (fst e) (snd e) st)) ->
            In w (writes st) \/ scrubbed_file dir [e] w) entries ->
  forall st w, In w (writes (walk directory entries st)) ->
               In w (writes st) \/ scrubbed_file directory entries w.
Proof.
  induction 1 as [|e entries He _ IH]; intros st w Hw; [now left|].
  rewrite walk_cons in Hw. destruct (IH _ _ Hw) as [Hin|Hr].
  - destruct (He _ _ _ Hin) as [Hst|Hs]; [now left|right].
    apply (scrubbed_file_incl directory [e]); [|exact Hs].
    intros e' [<-|[]]. now left.
  - right. apply (scrubbed_file_incl directory entries); [|exact Hr].
    intros e' He'. now right.
Qed.

Lemma walk_entry_scrubbed entry : forall directory entryName st w,
  In w (writes (walk_entry directory entryName entry st)) ->
  In w (writes st) \/ scrubbed_file directory [(entryName, entry)] w.
Proof.
  induction entry as [content|entries IH|target|] using fsnode_nested_ind;
    intros directory entryName st w Hw.
  - cbn [walk_entry] in Hw.
    destruct (negb (isCodeFile (path_join directory entryName))) eqn:Ec;
      [now left|].
    apply negb_false_iff in Ec. unfold scrub_file in Hw.
    destruct (0 <? removedCount (stripEslintCommentsFromContent content))%nat
      eqn:En; cbn [writes] in Hw; [|now left].
    apply in_app_or in Hw as [Hw|[<-|[]]]; [now left|right].
    apply Nat.ltb_lt in En. pose proof (strip_length content) as Hl.
    exists [entryName], content. cbn [fst snd rev app holds_file In].
    repeat split; auto. lia.
  - rewrite walk_entry_dir in Hw.
    destruct (shouldIgnoreDir entryName); [now left|].
    assert (Hall : Forall (fun e => forall dir st w,
              In w (writes (walk_entry dir (fst e) (snd e) st)) ->
              In w (writes st) \/ scrubbed_file dir [e] w) entries).
    { eapply Forall_impl; [|exact IH]. intros [n x] He dir st' w'.
      cbn [fst snd]. apply He. }
    destruct (walk_fold_scrubbed _ _ Hall _ _ Hw) as [Hin|Hr]; [now left|right].
    now apply scrubbed_file_below.
  - now left.

  - now left.
Qed.

(** X13: the walk writes existing code files only, each with the scrub of
    its own content, which removed at least one occurrence and is shorter
    than what the file held; it creates no file and never writes a file
    back as it was. *)
Theorem walk_writes_scrubbed_files directory entries w :
  In w (writes (walk directory entries walk_start)) ->
  exists rel original,
    fst w = rev rel ++ directory
    /\ holds_file entries rel original
    /\ isCodeFile (fst w) = true
    /\ snd w = modified (stripEslintCommentsFromContent original)
    /\ 0 < removedCount (stripEslintCommentsFromContent original)
    /\ List.length (snd w) < List.length original.
Proof.
  intros Hw.
  assert (Hall : Forall (fun e => forall dir st w,
            In w (writes (walk_entry dir (fst e) (snd e) st)) ->
            In w (writes st) \/ scrubbed_file dir [e] w) entries).
  { apply Forall_forall. intros [n x] _ dir st w'. cbn [fst snd].
    apply walk_entry_scrubbed. }
  destruct (walk_fold_scrubbed directory entries Hall _ _ Hw) as [[]|H].
  exact H.
Qed.

Lemma walk_writes_scrubbed_files_witness :
  exists rel original,
    [js "a.js"; js "app"] = rev rel ++ [js "app"]
    /\ holds_file demo_tree rel original
    /\ js "let a; " = modified (stripEslintCommentsFromContent original).
Proof.
  destruct (walk_writes_scrubbed_files [js "app"] demo_tree
              ([js "a.js"; js "app"], js "let a; "))
    as (rel & original & H1 & H2 & _ & H4 & _).
  - vm_compute. now left.
  - exists rel, original. repeat split; assumption.
Defined.

Lemma subsequence_refl s : subsequence s s.
Proof. induction s; constructor; assumption. Qed.

Lemma subsequence_trans a b c :
  subsequence a b -> subsequence b c -> subsequence a c.
Proof.
  intros Hab Hbc. revert a Hab.
  induction Hbc as [|x b c Hbc IH|x b c Hbc IH]; intros a Hab.
  - exact Hab.
  - inversion Hab; subst.
    + constructor. now apply IH.
    + apply subsequence_drop. now apply IH.
  - apply subsequence_drop. now apply IH.
Qed.

Lemma replace_from_subsequence re : forall s skip,
  subsequence (replace_from re [] s skip) s.
Proof.
  induction s as [|c s IH]; intros skip.
  - destruct skip; cbn [replace_from]; [|constructor].
    destruct (exec_at re []); constructor.
  - destruct skip as [|n]; cbn [replace_from].
    + destruct (exec_at re (c :: s)) as [len|].
      * cbn [app]. destruct len as [|m]; cbn [app pred].
        -- apply subsequence_keep, IH.
        -- apply subsequence_drop, IH.
      * apply subsequence_keep, IH.
    + apply subsequence_drop, IH.
Qed.

Lemma strip_steps_subsequence patterns : forall acc,
  subsequence (modified (fold_left strip_step patterns acc)) (modified acc).
Proof.
  induction patterns as [|re rest IH]; intros acc; cbn [fold_left].
  - apply subsequence_refl.
  - eapply subsequence_trans; [apply IH|].
    unfold strip_step, String_replace. cbn [modified].
    apply replace_from_subsequence.
Qed.

(** X14: the scrub only deletes: its output is the input with some of its
    characters left out, in the same order; nothing is inserted, replaced
    or moved. *)
Theorem scrub_only_deletes content :
  subsequence (modified (stripEslintCommentsFromContent content)) content.
Proof.
  exact (strip_steps_subsequence ESLINT_DIRECTIVE_PATTERNS
           {| modified := content; removedCount := 0 |}).
Qed.

Lemma strip_step_slash_free_prefix pre text n re :
  In re ESLINT_DIRECTIVE_PATTERNS -> ~ In SLASH pre ->
  strip_step {| modified := pre ++ text; removedCount := n |} re
  = {| modified :=
         pre ++ modified (strip_step {| modified := text; removedCount := n |} re);
       removedCount :=
         removedCount (strip_step {| modified := text; removedCount := n |} re) |}.
Proof.
  intros Hin Hpre. unfold strip_step, String_match, String_replace.
  cbn [modified removedCount].
  destruct (scan_slash_free re [] pre text Hin Hpre) as [-> ->]. reflexivity.
Qed.

Lemma strip_steps_slash_free_prefix pre patterns :
  (forall re, In re patterns -> In re ESLINT_DIRECTIVE_PATTERNS) ->
  ~ In SLASH pre ->
  forall text n,
    fold_left strip_step patterns {| modified := pre ++ text; removedCount := n |}
    = {| modified :=
           pre ++ modified (fold_left strip_step patterns
                              {| modified := text; removedCount := n |});
         removedCount :=
           removedCount (fold_left strip_step patterns
                           {| modified := text; removedCount := n |}) |}.
Proof.
  intros Hsub Hpre. induction patterns as [|re rest IH]; intros text n;
    cbn [fold_left]; [reflexivity|].
  rewrite (strip_step_slash_free_prefix pre text n re
             (Hsub re (or_introl eq_refl)) Hpre).
  destruct (strip_step {| modified := text; removedCount := n |} re) as [m c].
  cbn [modified removedCount]. apply IH. intros r Hr. apply Hsub. now right.
Qed.

(** X15: text that holds no slash passes through the scrub untouched and
    without influence on what follows it: scrubbing such a text followed by
    any other gives the text followed by the scrub of the other, with the
    same count; a content without any slash is returned as it is, with
    count 0. *)
Theorem scrub_keeps_slash_free_prefix pre rest :
  ~ In SLASH pre ->
  stripEslintCommentsFromContent (pre ++ rest)
  = {| modified := pre ++ modified (stripEslintCommentsFromContent rest);
       removedCount := removedCount (stripEslintCommentsFromContent rest) |}
  /\ stripEslintCommentsFromContent pre
     = {| modified := pre; removedCount := 0 |}.
Proof.
  intros Hpre. split.
  - apply strip_steps_slash_free_prefix; auto.
  - apply strip_no_directive. intros re Hin. now apply match_slash_free.
Qed.

Lemma scrub_keeps_slash_free_prefix_witness :
  stripEslintCommentsFromContent (js "let a = 1; " ++ js "// eslint-disable-line")
  = {| modified := js "let a = 1; "
                   ++ modified (stripEslintCommentsFromContent
                                  (js "// eslint-disable-line"));
       removedCount :=
         removedCount (stripEslintCommentsFromContent (js "// eslint-disable-line")) |}.
Proof.
  apply scrub_keeps_slash_free_prefix. vm_compute. intuition discriminate.
Defined.

(** ** The effect of the walk on the files *)

Lemma distinct_names_dir entries :
  distinct_names (Dir entries)
  <-> NoDup (map fst entries)
      /\ Forall (fun e => distinct_names (snd e)) entries.
Proof.
  cbn [distinct_names]. split; intros [Hn Ha]; (split; [exact Hn|]); clear Hn.
  - induction entries as [|e entries IH]; constructor; [apply Ha|apply IH, Ha].
  - induction Ha as [|e entries He _ IH]; [exact I|split; assumption].
Qed.


Lemma holds_file_head es rel original :
  holds_file es rel original ->
  exists d rest, rel = d :: rest /\ In d (map fst es).
Proof.
  destruct rel as [|d rest]; cbn [holds_file]; [contradiction|].
  intros H. exists d, rest. split; [reflexivity|].
  destruct rest.
  - apply in_map_iff. now exists (d, File original).
  - destruct H as (sub & Hin & _). apply in_map_iff. now exists (d, Dir sub).
Qed.









Lemma walk_additive directory entries st :
  walk directory entries st
  = add_state st (walk directory entries walk_start).
Proof.
  apply walk_fold_additive. apply Forall_forall. intros e _ dir st'.
  apply walk_entry_additive.
Qed.

Lemma walk_writes_cons directory e entries :
  writes (walk directory (e :: entries) walk_start)
  = writes (walk_entry directory (fst e) (snd e) walk_start)
    ++ writes (walk directory entries walk_start).
Proof. rewrite walk_cons, walk_additive. reflexivity. Qed.

Lemma walk_scrubbed directory entries w :
  In w (writes (walk directory entries walk_start)) ->
  scrubbed_file directory entries w.
Proof.
  intros Hw.
  assert (Hall : Forall (fun e => forall dir st w,
            In w (writes (walk_entry dir (fst e) (snd e) st)) ->
            In w (writes st) \/ scrubbed_file dir [e] w) entries).
  { apply Forall_forall. intros [n x] _ dir st w'. cbn [fst snd].
    apply walk_entry_scrubbed. }
  destruct (walk_fold_scrubbed directory entries Hall _ _ Hw) as [[]|H].
  exact H.
Qed.

Lemma walk_fold_distinct directory entries :
  NoDup (map fst entries) ->
  Forall (fun e => forall dir,
            NoDup (map fst (writes (walk_entry dir (fst e) (snd e) walk_start))))
    entries ->
  NoDup (map fst (writes (walk directory entries walk_start))).
Proof.
  intros Hn Hall. induction Hall as [|e entries He _ IH].
  - constructor.
  - cbn [map] in Hn. inversion Hn as [|? ? Hk Hn']; subst.
    rewrite walk_writes_cons, map_app. apply NoDup_app; [apply He|now apply IH|].
    intros p H1 H2.
    apply in_map_iff in H1 as (w1 & <- & H1).
    apply in_map_iff in H2 as (w2 & E & H2).
    destruct (walk_entry_scrubbed (snd e) directory (fst e) walk_start w1 H1)
      as [[]|(rel1 & o1 & P1 & Hh1 & _)].
    destruct (walk_scrubbed directory entries w2 H2) as (rel2 & o2 & P2 & Hh2 & _).
    rewrite P1, P2 in E. apply app_inv_tail, rev_inj in E. subst rel2.
    destruct (holds_file_head _ _ _ Hh1) as (d & rest & -> & Hd1).
    destruct (holds_file_head _ _ _ Hh2) as (d' & rest' & E' & Hd2).
    injection E' as <- <-. destruct e as [n x]. cbn [map fst In] in Hd1.
    destruct Hd1 as [<-|[]]. exact (Hk Hd2).
Qed.

Lemma walk_entry_distinct entry :
  distinct_names entry ->
  forall directory entryName,
    NoDup (map fst (writes (walk_entry directory entryName entry walk_start))).
Proof.
  induction entry as [content|entries IH|target|] using fsnode_nested_ind;
    intros Hd directory entryName.
  - cbn [walk_entry].
    destruct (negb (isCodeFile (path_join directory entryName))); [constructor|].
    unfold scrub_file.
    destruct (0 <? removedCount (stripEslintCommentsFromContent content))%nat;
      cbn [writes walk_start app map]; repeat constructor. intros [].
  - rewrite walk_entry_dir.
    destruct (shouldIgnoreDir entryName); [constructor|].
    apply distinct_names_dir in Hd as [Hn Ha].
    apply walk_fold_distinct; [exact Hn|].
    rewrite Forall_forall in IH, Ha |- *. intros e He dir.
    apply (IH e He (Ha e He)).
  - constructor.

  - constructor.
Qed.







Section WalkEffect.

Variable fs_fault : fs_call -> world -> option exn.







End WalkEffect.


(** ** Text without the start of a comment *)

Lemma rmatch_two_chars a b r s k :
  rmatch false (Seq (Seq (Chr a) (Chr b)) r) s k <> None ->
  exists s', s = a :: b :: s'.
Proof.
  cbn [rmatch]. unfold char_eqb, canonicalize. cbn [andb].
  destruct s as [|x s]; [congruence|].
  destruct (N.eqb x a) eqn:Ex; [|congruence].
  destruct s as [|y s]; [congruence|].
  destruct (N.eqb y b) eqn:Ey; [|congruence].
  apply N.eqb_eq in Ex. apply N.eqb_eq in Ey. subst. intros _. now exists s.
Qed.

Lemma patterns_two_chars re :
  In re ESLINT_DIRECTIVE_PATTERNS ->
  ignoreCase re = false
  /\ exists b r, pattern re = Seq (Seq (Chr SLASH) (Chr b)) r
                 /\ (b = SLASH \/ b = STAR).
Proof.
  unfold ESLINT_DIRECTIVE_PATTERNS. cbn [In]. intros H.
  repeat (destruct H as [<-|H];
          [split; [reflexivity|];
           eexists; eexists; split;
           [vm_compute; reflexivity|vm_compute; tauto]|]).
  contradiction.
Qed.

Lemma exec_at_comment_start re s :
  In re ESLINT_DIRECTIVE_PATTERNS -> exec_at re s <> None ->
  exists c s', s = SLASH :: c :: s' /\ (c = SLASH \/ c = STAR).
Proof.
  intros Hin. destruct (patterns_two_chars re Hin) as (Hic & b & r & Hp & Hb).
  unfold exec_at. rewrite Hic, Hp.
  destruct (rmatch false (Seq (Seq (Chr SLASH) (Chr b)) r) s Some) eqn:E;
    [|congruence].
  intros _. destruct (rmatch_two_chars SLASH b r s Some) as [s' ->]; [congruence|].
  now exists b, s'.
Qed.

Lemma matches_comment_start_free re s :
  In re ESLINT_DIRECTIVE_PATTERNS -> comment_start_free s = true ->
  matches_from re s 0 = [].
Proof.
  intros Hin. induction s as [|a t IH]; intros Hfree.
  - cbn [matches_from]. destruct (exec_at re []) eqn:E; [|reflexivity].
    destruct (exec_at_comment_start re [] Hin) as (c & s' & Hs & _);
      [congruence|discriminate].
  - cbn [comment_start_free] in Hfree. apply andb_true_iff in Hfree as [Ha Ht].
    rewrite matches_from_cons_none; [now apply IH|].
    destruct (exec_at re (a :: t)) eqn:E; [|reflexivity].
    destruct (exec_at_comment_start re (a :: t) Hin) as (c & s' & Hs & Hc);
      [congruence|].
    injection Hs as -> ->. cbn in Ha.
    destruct Hc as [-> | ->]; discriminate.
Qed.

(** X17: a text in which no slash is followed by a slash or a star (so
    that it holds neither [//] nor [/*], as in a division) is returned as
    it is, with count 0. *)
Theorem scrub_leaves_text_without_comment_start content :
  comment_start_free content = true ->
  stripEslintCommentsFromContent content
  = {| modified := content; removedCount := 0 |}.
Proof.
  intros H. apply strip_no_directive. intros re Hin.
  apply String_match_none. now apply matches_comment_start_free.
Qed.

Lemma scrub_leaves_text_without_comment_start_witness :
  stripEslintCommentsFromContent (js "const half = total / 2; /eslint-disable/")
  = {| modified := js "const half = total / 2; /eslint-disable/";
       removedCount := 0 |}.
Proof.
  apply scrub_leaves_text_without_comment_start. vm_compute. reflexivity.
Defined.

(** ** The orchestrator's steps *)



Section HostFacts.

Variable PROJECT_ROOT : path.
Variable JSON_parse : jsstring -> result json.
Variable JSON_stringify : json -> jsstring.
Variable execSync : jsstring -> world -> exec_outcome * world.
Variable inquirer_prompt : bool -> M answers.
Variable chalk : string -> jsstring -> jsstring.
Variable inspect : exn -> jsstring.
Variable fs_fault : fs_call -> world -> option exn.

Local Abbreviation config_path := (PATHS_biomeConfig PROJECT_ROOT).


(** X19: a manifest whose text is the JSON value [null] is read without
    error, and [main] then fails on its first use before printing
    anything: it reports an unexpected error, not a [CliError], and exits
    with code 1, the disk untouched. *)
Theorem null_manifest_is_unexpected w raw :
  world_readFileSync w (PATHS_packageJson PROJECT_ROOT) = Ok raw ->
  JSON_parse raw = Ok JNull ->
  readManifest PROJECT_ROOT JSON_parse w = (Ok JNull, w)
  /\ main PROJECT_ROOT JSON_parse JSON_stringify execSync inquirer_prompt chalk
       inspect fs_fault w
     = (1,
        {| root := root w;
           console :=
             (console w
              ++ [(Stderr,
                   chalk "red" (js "Unexpected error while running Biome setup:"))])
             ++ [(Stderr, inspect (null_property "dependencies"))] |}).
Proof.
  intros Hr Hp.
  assert (Hex : world_existsSync w (PATHS_packageJson PROJECT_ROOT) = true)
    by exact (world_read_exists _ _ _ Hr).
  assert (E : readManifest PROJECT_ROOT JSON_parse w = (Ok JNull, w)).
  { unfold readManifest, readPackageJson, ensurePackageJsonExists.
    now rewrite Hex, Hr, Hp. }
  split; [exact E|].
  unfold main, main_try, bind. rewrite E. reflexivity.
Qed.

End HostFacts.


Lemma null_manifest_is_unexpected_witness :
  fst (main scenario_root (fun _ => Ok JNull) no_stringify quiet_execSync
         decline_all plain message no_fault (project_with (js "null"))) = 1.
Proof.
  rewrite (proj2 (null_manifest_is_unexpected scenario_root (fun _ => Ok JNull)
                    no_stringify quiet_execSync decline_all plain message
                    no_fault (project_with (js "null")) (js "null")
                    ltac:(vm_compute; reflexivity) eq_refl)).
  reflexivity.
Defined.
